(** * Moderation behaviours of the atproto packages

    A shallow embedding of
    - [packages/api/scripts/docs/profile-moderation-behaviors.mjs]
      (the generator of the scenarios table),
    - the [ServerConfig] constructor,
    - the moderation wrappers of [packages/bsky/tests/seeds/client.ts],
    - the [getModerationAction] handler,
    together with the action/report ledger and the directive merge, which
    are described by the specification only. *)

From Stdlib Require Import ZArith NArith List String Ascii Lia Bool Permutation.
From Stdlib Require Import DecimalString.
From stdpp Require Import base option list gmap.

Local Open Scope Z_scope.

(** ** JavaScript strings and values *)

(** A JavaScript string is a sequence of UTF-16 code units; [length],
    [indexOf], [slice] and [startsWith] all count code units. *)
Abbreviation jsstring := (list N).

(** Literals whose characters are all ASCII. *)
Definition js (s : string) : jsstring :=
  map N_of_ascii (list_ascii_of_string s).

Definition jsstring_eqb (s t : jsstring) : bool :=
  bool_decide (s = t).

(** The values that reach a truthiness test in the modelled code:
    [undefined], [null], booleans and strings. *)
Inductive jsval : Type :=
  | JUndefined
  | JNull
  | JBool (b : bool)
  | JString (s : jsstring).

(** ToBoolean. *)
Definition truthy (v : jsval) : bool :=
  match v with
  | JUndefined => false
  | JNull => false
  | JBool b => b
  | JString s => negb (jsstring_eqb s [])
  end.

(** [hay.startsWith(needle)]. *)
Fixpoint startsWith (hay needle : jsstring) {struct needle} : bool :=
  match needle, hay with
  | [], _ => true
  | _ :: _, [] => false
  | c :: needle', d :: hay' => (c =? d)%N && startsWith hay' needle'
  end.

(** [hay.indexOf(needle)], searching from position [k]; [-1] when absent. *)
Fixpoint indexOf_from (hay needle : jsstring) (k : Z) : Z :=
  if startsWith hay needle then k
  else match hay with
       | [] => -1
       | _ :: hay' => indexOf_from hay' needle (k + 1)
       end.

Definition indexOf (hay needle : jsstring) : Z := indexOf_from hay needle 0.

(** [s.slice(start, end)] with the clamping of negative and oversized
    indices that [String.prototype.slice] performs. *)
Definition slice (s : jsstring) (start stop : Z) : jsstring :=
  let len := Z.of_nat (length s) in
  let from := if start <? 0 then Z.max (len + start) 0 else Z.min start len in
  let to := if stop <? 0 then Z.max (len + stop) 0 else Z.min stop len in
  take (Z.to_nat (Z.max (to - from) 0)) (drop (Z.to_nat from) s).

(** [needle] occurs in [hay]. *)
Definition isSubstring (needle hay : jsstring) : Prop :=
  exists pre post, hay = pre ++ needle ++ post.

(** [parts.join(sep)]. *)
Fixpoint join (sep : jsstring) (parts : list jsstring) : jsstring :=
  match parts with
  | [] => []
  | [p] => p
  | p :: rest => p ++ sep ++ join sep rest
  end.

(** ** The documentation generator *)

Module Docs.

(** The four markers of the key, as UTF-16 code units:
    U+274C, U+1F6AB, U+270B and U+1FAA7. *)
Definition mark_filter : jsstring := [0x274C%N].
Definition mark_blur_noOverride : jsstring := [0xD83D%N; 0xDEAB%N].
Definition mark_blur : jsstring := [0x270B%N].
Definition mark_alert : jsstring := [0xD83E%N; 0xDEA7%N].

Definition filter (val : jsval) : jsstring :=
  if truthy val then mark_filter else [].

Definition blur (val noOverride : jsval) : jsstring :=
  if truthy val then
    if truthy noOverride then mark_blur_noOverride else mark_blur
  else [].

Definition alert (val : jsval) : jsstring :=
  if truthy val then mark_alert else [].

(** The fixture format: every flag is an optional boolean and every entity
    is optional. *)
Record Behavior : Type := mkBehavior {
  b_filter : option bool;
  b_blur : option bool;
  b_noOverride : option bool;
  b_alert : option bool
}.

Record Behaviors : Type := mkBehaviors {
  account : option Behavior;
  profile : option Behavior;
  avatar : option Behavior
}.

Record Scenario : Type := mkScenario { behaviors : Behaviors }.

(** [entity?.flag]: [undefined] when the entity or the flag is absent. *)
Definition opt_flag (entity : option Behavior)
    (flag : Behavior -> option bool) : jsval :=
  match entity with
  | None => JUndefined
  | Some b => match flag b with
              | None => JUndefined
              | Some v => JBool v
              end
  end.

(** The values interpolated into the row template of [scenarioSection],
    in the order in which they appear. *)
Record RowCells : Type := mkRowCells {
  cell_title : jsstring;
  cell_filter : jsstring;
  cell_account_blur : jsstring;
  cell_account_alert : jsstring;
  cell_profile_blur : jsstring;
  cell_profile_alert : jsstring;
  cell_avatar_blur : jsstring;
  cell_avatar_alert : jsstring
}.

Definition scenarioCells (title : jsstring) (scenario : Scenario) : RowCells :=
  let bs := behaviors scenario in
  {| cell_title := title;
     cell_filter := filter (opt_flag (account bs) b_filter);
     cell_account_blur :=
       blur (opt_flag (account bs) b_blur) (opt_flag (account bs) b_noOverride);
     cell_account_alert := alert (opt_flag (account bs) b_alert);
     cell_profile_blur :=
       blur (opt_flag (profile bs) b_blur) (opt_flag (profile bs) b_noOverride);
     cell_profile_alert := alert (opt_flag (profile bs) b_alert);
     cell_avatar_blur :=
       blur (opt_flag (avatar bs) b_blur) (opt_flag (avatar bs) b_noOverride);
     cell_avatar_alert := alert (opt_flag (avatar bs) b_alert) |}.

(** The text of the row template with the cells substituted, before the
    template tag is applied. *)
Definition rowTemplate (c : RowCells) : jsstring :=
  js "
  <tr>
    <td><strong>" ++ cell_title c ++ js "</strong></td>
    <td>
      " ++ cell_filter c ++ js "
    </td>
    <td>
      " ++ cell_account_blur c ++ js "
      " ++ cell_account_alert c ++ js "
    </td>
    <td>
      " ++ cell_profile_blur c ++ js "
      " ++ cell_profile_alert c ++ js "
    </td>
    <td>
      " ++ cell_avatar_blur c ++ js "
      " ++ cell_avatar_alert c ++ js "
    </td>
  </tr>
  ".

Definition postTableHead : jsstring :=
  js "<tr><th>Scenario</th><th>Filter</th><th>Account</th><th>Profile</td><th>Avatar</th></tr>".

(** What the callback of [map] interpolates for one entry: the header (or
    the empty string) and the scenario row. *)
Record RowChunk : Type := mkRowChunk {
  chunk_head : jsstring;
  chunk_section : jsstring
}.

Definition chunkTemplate (c : RowChunk) : jsstring :=
  js "
          " ++ chunk_head c ++ js "
          " ++ chunk_section c ++ js "
        ".

Definition docHeader : jsstring :=
  js "
  <!-- this doc is generated by ./scripts/docs/profile-moderation-behaviors.mjs -->

  # Profile moderation behaviors
  
  This document is a reference for the expected behaviors for a profile in the application based on some given scenarios. The <code>moderateProfile()</code> command condense down to the following yes or no decisions:

  - <code>res.account.filter</code> Do not show the account in feeds.
  - <code>res.account.blur</code> Put the account (in listings, when viewing) behind a warning cover.
  - <code>res.account.noOverride</code> Do not allow the account's blur cover to be lifted.
  - <code>res.account.alert</code> Add a warning to the account but do not cover it.
  - <code>res.profile.blur</code> Put the profile details (handle, display name, bio) behind a warning cover.
  - <code>res.profile.noOverride</code> Do not allow the profile's blur cover to be lifted.
  - <code>res.profile.alert</code> Add a warning to the profile but do not cover it.
  - <code>res.avatar.blur</code> Put the avatar behind a cover.
  - <code>res.avatar.noOverride</code> Do not allow the avatars's blur cover to be lifted.
  - <code>res.avatar.alert</code> Put a warning icon on the avatar.
 
  Key:

  - " ++ mark_filter ++ js " = Filter Content
  - " ++ mark_blur_noOverride ++ js " = Blur (no-override)
  - " ++ mark_blur ++ js " = Blur
  - " ++ mark_alert ++ js " = Alert

  ## Scenarios

  <table>
    ".

Definition docFooter : jsstring :=
  js "
  </table>
  ".

Section Generator.

(** [stripIndents] of the [common-tags] package: a template tag, applied
    to the text of the template after substitution. *)
Variable stripIndents : jsstring -> jsstring.

Definition scenarioSection (title : jsstring) (scenario : Scenario)
  : jsstring :=
  stripIndents (rowTemplate (scenarioCells title scenario)).

(** The callback of [map] reads and then overwrites [lastTitle]; the
    variable is threaded through the traversal of the entries. *)
Fixpoint scenarioChunks (lastTitle : jsstring)
    (entries : list (jsstring * Scenario)) : list RowChunk :=
  match entries with
  | [] => []
  | (title, scenario) :: rest =>
      let str :=
        {| chunk_head :=
             if indexOf title lastTitle =? -1 then postTableHead else [];
           chunk_section := scenarioSection title scenario |} in
      str :: scenarioChunks (slice title 0 10) rest
  end.

(** [profiles()], given [Object.entries(def.scenarios)]. *)
Definition profiles (entries : list (jsstring * Scenario)) : jsstring :=
  stripIndents
    (docHeader
     ++ join (js "

") (map chunkTemplate (scenarioChunks (js "NULL") entries))
     ++ docFooter).

End Generator.

(** *** Vocabulary of the statements about the table *)

Inductive Entity : Type := OnAccount | OnProfile | OnAvatar.

Definition entityOf (e : Entity) (bs : Behaviors) : option Behavior :=
  match e with
  | OnAccount => account bs
  | OnProfile => profile bs
  | OnAvatar => avatar bs
  end.

Definition blurCell (e : Entity) (c : RowCells) : jsstring :=
  match e with
  | OnAccount => cell_account_blur c
  | OnProfile => cell_profile_blur c
  | OnAvatar => cell_avatar_blur c
  end.

Definition alertCell (e : Entity) (c : RowCells) : jsstring :=
  match e with
  | OnAccount => cell_account_alert c
  | OnProfile => cell_profile_alert c
  | OnAvatar => cell_avatar_alert c
  end.

(** The value of a flag in the record, absent when the entity is. *)
Definition flagValue (entity : option Behavior)
    (flag : Behavior -> option bool) : option bool :=
  match entity with
  | None => None
  | Some b => flag b
  end.

(** The flag is present and [true]. *)
Definition flagTrue (entity : option Behavior)
    (flag : Behavior -> option bool) : Prop :=
  flagValue entity flag = Some true.

(** The value of [lastTitle] when the callback reaches entry [i]. *)
Definition lastTitleAt (entries : list (jsstring * Scenario)) (i : nat)
  : jsstring :=
  match i with
  | O => js "NULL"
  | S j => match entries !! j with
           | Some (t, _) => take 10 t
           | None => []
           end
  end.

(** The value of [lastTitle] after the callback has run over [entries],
    starting from [lastTitle]. *)
Definition lastTitleAfter (lastTitle : jsstring)
    (entries : list (jsstring * Scenario)) : jsstring :=
  match last entries with
  | Some (t, _) => take 10 t
  | None => lastTitle
  end.

(** Sample scenarios with an account entity only. *)
Definition s_flags (f b n a : option bool) : Scenario :=
  {| behaviors :=
       {| account := Some {| b_filter := f; b_blur := b;
                             b_noOverride := n; b_alert := a |};
          profile := None;
          avatar := None |} |}.

Definition s_blur_off (noOverride : option bool) : Scenario :=
  s_flags None (Some false) noOverride None.

(** Two entries whose titles share their first ten code units. *)
Definition sampleEntries : list (jsstring * Scenario) :=
  [ (js "Imperative label ('!hide') on account",
     s_flags (Some true) (Some true) (Some true) None);
    (js "Imperative label ('!hide') on profile",
     s_flags None (Some true) (Some true) None) ].

End Docs.

(** ** Computations with a store and exceptions *)

(** A computation over a store [S] that returns an [A] or throws an [E].
    A throw keeps the store as the failing step left it. *)
Definition SE (S E A : Type) : Type := S -> (E + A) * S.

Definition ret {S E A} (a : A) : SE S E A := fun s => (inr a, s).

Definition throw {S E A} (e : E) : SE S E A := fun s => (inl e, s).

Definition bind {S E A B} (m : SE S E A) (k : A -> SE S E B) : SE S E B :=
  fun s =>
    match m s with
    | (inl e, s') => (inl e, s')
    | (inr a, s') => k a s'
    end.

Definition get {S E} : SE S E S := fun s => (inr s, s).

Definition put {S E} (s : S) : SE S E unit := fun _ => (inr tt, s).

Declare Scope se_scope.
Delimit Scope se_scope with se.
Notation "x <- m ;; k" := (bind m (fun x => k))
  (at level 100, m at next level, right associativity) : se_scope.
Notation "m ;;; k" := (bind m (fun _ => k))
  (at level 100, right associativity) : se_scope.

(** [for (x of xs) { f(x) }], collecting the results. *)
Fixpoint mapSE {S E A B} (f : A -> SE S E B) (xs : list A) : SE S E (list B) :=
  match xs with
  | [] => ret []
  | x :: xs' => (y <- f x ;; ys <- mapSE f xs' ;; ret (y :: ys))%se
  end.

(** A JavaScript [Error] with its message. *)
Inductive JsError : Type := Error (message : jsstring).

(** ** [ServerConfig] *)

Module Config.

(** Of [ServerConfigValues], the constructor reads [availableUserDomains]
    only; the other fields are stored as they are. *)
Record ServerConfigValues : Type := mkValues {
  availableUserDomains : list jsstring
}.

Record ServerConfig : Type := mkConfig { cfg : ServerConfigValues }.

(** The predicate handed to [find]. *)
Definition isInvalid (domain : jsstring) : bool :=
  (Z.of_nat (length domain) <? 1) || negb (startsWith domain (js ".")).

(** [arr.find(p)]: the first element that satisfies [p], or [undefined]. *)
Definition Array_find (p : jsstring -> bool) (arr : list jsstring) : jsval :=
  match List.find p arr with
  | Some d => JString d
  | None => JUndefined
  end.

(** The template literal of the message. *)
Definition show (v : jsval) : jsstring :=
  match v with
  | JUndefined => js "undefined"
  | JNull => js "null"
  | JBool true => js "true"
  | JBool false => js "false"
  | JString s => s
  end.

(** [new ServerConfig(cfg)]. *)
Definition new_ServerConfig (c : ServerConfigValues) : JsError + ServerConfig :=
  let invalidDomain := Array_find isInvalid (availableUserDomains c) in
  if truthy invalidDomain
  then inl (Error (js "Invalid domain: " ++ show invalidDomain))
  else inr {| cfg := c |}.

(** Every entry is non-empty and starts with a dot. *)
Definition allValid (domains : list jsstring) : Prop :=
  forall d, In d domains -> d <> [] /\ startsWith d (js ".") = true.

(** What the rule "invalid iff some entry is empty or lacks the leading
    dot" asks of the constructor. *)
Definition throwsIffInvalid (c : ServerConfigValues) : Prop :=
  (exists e, new_ServerConfig c = inl e) <-> ~ allValid (availableUserDomains c).

End Config.

(** ** The seed client *)

Module Seed.

Set Implicit Arguments.

Section Client.

(** The lexicon types of the request bodies and the type of the response
    data are declared outside the modelled files. *)
Variables (ActionInput SubjectInput Data : Type).

Record Headers : Type := mkHeaders { authorization : jsstring }.

Record CallOptions : Type := mkCallOptions {
  encoding : jsstring;
  headers : Headers
}.

(** The three admin procedures, with the body in the order in which the
    wrappers build it. *)
Inductive Request : Type :=
  | TakeModerationAction (action : ActionInput) (subject : SubjectInput)
      (createdBy reason : jsstring) (opts : CallOptions)
  | ReverseModerationAction (id : Z) (reason createdBy : jsstring)
      (opts : CallOptions)
  | ResolveModerationReports (actionId : Z) (createdBy : jsstring)
      (reportIds : list Z) (opts : CallOptions).

(** The service behind the agent, and the list of requests it has
    received so far. *)
Variable Service : Type.

Record World : Type := mkWorld {
  service : Service;
  sent : list Request
}.

(** The agent: it answers a request with [result.data] or rejects, and
    may change the service. *)
Variable agent : Request -> Service -> (JsError + Data) * Service.

Definition call (req : Request) : SE World JsError Data :=
  fun w =>
    let '(r, s') := agent req (service w) in
    (r, {| service := s'; sent := sent w ++ [req] |}).

(** The part of [SeedClient] the wrappers read. *)
Record SeedClient : Type := mkSeedClient { adminAuth : option jsstring }.

Definition adminAuth_val (c : SeedClient) : jsval :=
  match adminAuth c with
  | None => JUndefined
  | Some s => JString s
  end.

(** A destructuring default: used when the property is [undefined]. *)
Definition default_to (d : jsstring) (o : option jsstring) : jsstring :=
  match o with
  | None => d
  | Some s => s
  end.

Definition noAdminAuth : JsError :=
  Error (js "No admin auth provided to seed client").

(** [if (!this.adminAuth) throw ...]: past the guard the property is a
    string, which the wrappers put in the [authorization] header. *)
Definition requireAdminAuth (c : SeedClient) : SE World JsError jsstring :=
  if negb (truthy (adminAuth_val c)) then throw noAdminAuth
  else match adminAuth c with
       | Some auth => ret auth
       | None => throw noAdminAuth
       end.

Definition adminCall (auth : jsstring) : CallOptions :=
  {| encoding := js "application/json";
     headers := {| authorization := auth |} |}.

Record TakeOpts : Type := mkTakeOpts {
  take_action : ActionInput;
  take_subject : SubjectInput;
  take_reason : option jsstring;
  take_createdBy : option jsstring
}.

Definition takeModerationAction (c : SeedClient) (opts : TakeOpts)
  : SE World JsError Data :=
  (auth <- requireAdminAuth c ;;
   let action := take_action opts in
   let subject := take_subject opts in
   let reason := default_to (js "X") (take_reason opts) in
   let createdBy :=
     default_to (js "did:example:admin") (take_createdBy opts) in
   result <- call (TakeModerationAction action subject createdBy reason
                     (adminCall auth)) ;;
   ret result)%se.

Record ReverseOpts : Type := mkReverseOpts {
  reverse_id : Z;
  reverse_reason : option jsstring;
  reverse_createdBy : option jsstring
}.

Definition reverseModerationAction (c : SeedClient) (opts : ReverseOpts)
  : SE World JsError Data :=
  (auth <- requireAdminAuth c ;;
   let id := reverse_id opts in
   let reason := default_to (js "X") (reverse_reason opts) in
   let createdBy :=
     default_to (js "did:example:admin") (reverse_createdBy opts) in
   result <- call (ReverseModerationAction id reason createdBy
                     (adminCall auth)) ;;
   ret result)%se.

Record ResolveOpts : Type := mkResolveOpts {
  resolve_actionId : Z;
  resolve_reportIds : list Z;
  resolve_createdBy : option jsstring
}.

Definition resolveReports (c : SeedClient) (opts : ResolveOpts)
  : SE World JsError Data :=
  (auth <- requireAdminAuth c ;;
   let actionId := resolve_actionId opts in
   let reportIds := resolve_reportIds opts in
   let createdBy :=
     default_to (js "did:example:admin") (resolve_createdBy opts) in
   result <- call (ResolveModerationReports actionId createdBy reportIds
                     (adminCall auth)) ;;
   ret result)%se.

(** The behaviour of [takeModerationAction] if the guard told "unset"
    from "set": a throw for [undefined], the request for any string. *)
Definition guardBySetness (c : SeedClient) (opts : TakeOpts) (w : World)
  : Prop :=
  match adminAuth c with
  | None => takeModerationAction c opts w = (inl noAdminAuth, w)
  | Some auth =>
      takeModerationAction c opts w
      = call (TakeModerationAction (take_action opts) (take_subject opts)
                (default_to (js "did:example:admin") (take_createdBy opts))
                (default_to (js "X") (take_reason opts))
                (adminCall auth)) w
  end.

End Client.

(** A service that accepts every request, for sample runs. *)
Definition okAgent (req : Request unit unit) (s : unit)
  : (JsError + unit) * unit := (inr tt, s).

Definition freshWorld : World unit unit unit :=
  {| service := tt; sent := [] |}.

Definition sampleTake : TakeOpts unit unit :=
  {| take_action := tt; take_subject := tt;
     take_reason := None; take_createdBy := None |}.

Definition sampleReverse : ReverseOpts :=
  {| reverse_id := 1; reverse_reason := None; reverse_createdBy := None |}.

Definition sampleResolve : ResolveOpts :=
  {| resolve_actionId := 1; resolve_reportIds := [1; 2];
     resolve_createdBy := None |}.

Unset Implicit Arguments.

End Seed.

(** ** The action and report ledger *)

Module Ledger.

(** Modelled from the spec: the subject of an action or report (section 3);
    the moderation service that declares it is not among the sources. *)
Inductive Subject : Type :=
  | AccountSubject (actorId : jsstring)
  | RecordSubject (collectionUri contentHash : jsstring)
  | BlobSubject (contentHash : jsstring).

(** Modelled from the spec: a subject is well-formed when its identifier
    and hash are non-empty (section 4.1). *)
Definition wellFormed (s : Subject) : bool :=
  match s with
  | AccountSubject actorId => negb (jsstring_eqb actorId [])
  | RecordSubject uri hash =>
      negb (jsstring_eqb uri []) && negb (jsstring_eqb hash [])
  | BlobSubject hash => negb (jsstring_eqb hash [])
  end.

(** Modelled from the spec: the kinds of action (section 3); a kind outside
    the enumeration is carried by name. *)
Inductive ActionKind : Type :=
  | Takedown | Acknowledge | Flag | Escalate | Mute
  | OtherKind (name : jsstring).

Inductive Status : Type := Active | Reversed.

(** Modelled from the spec: the row of an action (section 3). *)
Record ModerationAction : Type := mkAction {
  action_id : Z;
  action_kind : ActionKind;
  action_subject : Subject;
  action_reason : jsstring;
  action_createdBy : jsstring;
  action_createdAt : Z;
  reversedBy : option jsstring;
  reversedAt : option Z;
  reversedReason : option jsstring
}.

(** Modelled from the spec: Active iff [reversedAt] is unset. *)
Definition status (a : ModerationAction) : Status :=
  match reversedAt a with
  | None => Active
  | Some _ => Reversed
  end.

Definition isActive (a : ModerationAction) : bool :=
  match status a with
  | Active => true
  | Reversed => false
  end.

(** Modelled from the spec: the row of a report (section 3). *)
Record ModerationReport : Type := mkReport {
  report_id : Z;
  report_reasonType : jsstring;
  report_subject : Subject;
  report_reportedBy : jsstring;
  report_reason : jsstring;
  report_createdAt : Z;
  resolvingActionId : option Z
}.

Definition isOpen (r : ModerationReport) : bool :=
  match resolvingActionId r with
  | None => true
  | Some _ => false
  end.

(** Modelled from the spec: the store holds the two tables, in insertion
    order, and the next identifier of each (sections 3 and 6). *)
Record Ledger : Type := mkLedger {
  actions : list ModerationAction;
  reports : list ModerationReport;
  nextActionId : Z;
  nextReportId : Z
}.

Definition emptyLedger : Ledger :=
  {| actions := []; reports := []; nextActionId := 1; nextReportId := 1 |}.

(** Modelled from the spec: the error taxonomy of section 7. *)
Inductive LedgerError : Type :=
  | InvalidSubject | NotFound | AlreadyReversed | AlreadyResolved.

Abbreviation M := (SE Ledger LedgerError).

Definition lookupAction (id : Z) (l : Ledger) : option ModerationAction :=
  List.find (fun a => action_id a =? id) (actions l).

Definition lookupReport (id : Z) (l : Ledger) : option ModerationReport :=
  List.find (fun r => report_id r =? id) (reports l).

(** Modelled from the spec: [getAction(id)] returns the action or fails
    with [NotFound] (section 4.1). *)
Definition getAction (id : Z) : M ModerationAction :=
  (l <- get ;;
   match lookupAction id l with
   | Some a => ret a
   | None => throw NotFound
   end)%se.

Definition getReport (id : Z) : M ModerationReport :=
  (l <- get ;;
   match lookupReport id l with
   | Some r => ret r
   | None => throw NotFound
   end)%se.

(** Modelled from the spec: [takeAction] rejects a malformed subject, and
    otherwise appends an Active action with the next id (section 4.1). *)
Definition takeAction (kind : ActionKind) (subject : Subject)
    (reason createdBy : jsstring) (now : Z) : M ModerationAction :=
  if negb (wellFormed subject) then throw InvalidSubject
  else
    (l <- get ;;
     let a := {| action_id := nextActionId l;
                 action_kind := kind;
                 action_subject := subject;
                 action_reason := reason;
                 action_createdBy := createdBy;
                 action_createdAt := now;
                 reversedBy := None;
                 reversedAt := None;
                 reversedReason := None |} in
     put {| actions := actions l ++ [a];
            reports := reports l;
            nextActionId := nextActionId l + 1;
            nextReportId := nextReportId l |} ;;;
     ret a)%se.

Definition setReversal (reversedBy_ : jsstring) (reason : jsstring) (now : Z)
    (a : ModerationAction) : ModerationAction :=
  {| action_id := action_id a;
     action_kind := action_kind a;
     action_subject := action_subject a;
     action_reason := action_reason a;
     action_createdBy := action_createdBy a;
     action_createdAt := action_createdAt a;
     reversedBy := Some reversedBy_;
     reversedAt := Some now;
     reversedReason := Some reason |}.

(** The conditional write of a reversal: the rows with this id that are
    not yet reversed (section 6). *)
Definition reverseWrite (id : Z) (reversedBy_ reason : jsstring) (now : Z)
    (x : ModerationAction) : ModerationAction :=
  if (action_id x =? id) && isActive x
  then setReversal reversedBy_ reason now x
  else x.

Definition updateActions (f : ModerationAction -> ModerationAction)
    (l : Ledger) : Ledger :=
  {| actions := map f (actions l);
     reports := reports l;
     nextActionId := nextActionId l;
     nextReportId := nextReportId l |}.

(** Modelled from the spec: [reverseAction] fails with [NotFound] for an
    unknown id and with [AlreadyReversed] for a reversed action; otherwise
    it sets the reversal fields, by a write conditional on "not yet
    reversed" (sections 4.1 and 6). *)
Definition reverseAction (id : Z) (reversedBy_ reason : jsstring) (now : Z)
    : M ModerationAction :=
  (a <- getAction id ;;
   match status a with
   | Reversed => throw AlreadyReversed
   | Active =>
       l <- get ;;
       put (updateActions (reverseWrite id reversedBy_ reason now) l) ;;;
       ret (setReversal reversedBy_ reason now a)
   end)%se.

(** Modelled from the spec: [createReport] rejects a malformed subject and
    otherwise appends an open report; there is no deduplication
    (section 4.2). *)
Definition createReport (reasonType : jsstring) (subject : Subject)
    (reason reportedBy : jsstring) (now : Z) : M ModerationReport :=
  if negb (wellFormed subject) then throw InvalidSubject
  else
    (l <- get ;;
     let r := {| report_id := nextReportId l;
                 report_reasonType := reasonType;
                 report_subject := subject;
                 report_reportedBy := reportedBy;
                 report_reason := reason;
                 report_createdAt := now;
                 resolvingActionId := None |} in
     put {| actions := actions l;
            reports := reports l ++ [r];
            nextActionId := nextActionId l;
            nextReportId := nextReportId l + 1 |} ;;;
     ret r)%se.

Definition setResolution (actionId : Z) (r : ModerationReport)
    : ModerationReport :=
  {| report_id := report_id r;
     report_reasonType := report_reasonType r;
     report_subject := report_subject r;
     report_reportedBy := report_reportedBy r;
     report_reason := report_reason r;
     report_createdAt := report_createdAt r;
     resolvingActionId := Some actionId |}.

Definition listed (reportIds : list Z) (r : ModerationReport) : bool :=
  existsb (fun i => report_id r =? i) reportIds.

(** The conditional write of a resolution: the listed reports that are
    not yet resolved (section 6). *)
Definition resolveWrite (actionId : Z) (reportIds : list Z)
    (r : ModerationReport) : ModerationReport :=
  if listed reportIds r && isOpen r then setResolution actionId r else r.

Definition updateReports (f : ModerationReport -> ModerationReport)
    (l : Ledger) : Ledger :=
  {| actions := actions l;
     reports := map f (reports l);
     nextActionId := nextActionId l;
     nextReportId := nextReportId l |}.

(** Modelled from the spec: [resolveReports] fails with [NotFound] when the
    action or one of the reports is unknown, with [AlreadyResolved] when a
    listed report already has a [resolvingActionId], and otherwise links
    every listed report to the action in one write conditional on "not yet
    resolved" (sections 4.2 and 6). *)
Definition resolveReports (actionId : Z) (reportIds : list Z)
    (createdBy : jsstring) : M (list ModerationReport) :=
  (_ <- getAction actionId ;;
   rs <- mapSE getReport reportIds ;;
   if existsb (fun r => negb (isOpen r)) rs then throw AlreadyResolved
   else
     l <- get ;;
     put (updateReports (resolveWrite actionId reportIds) l) ;;;
     mapSE getReport reportIds)%se.

(** The mutations of the ledger, as an operator or reporter may issue
    them, each with the time of the call where it is recorded. *)
Inductive Op : Type :=
  | OpTakeAction (kind : ActionKind) (subject : Subject)
      (reason createdBy : jsstring) (now : Z)
  | OpReverseAction (id : Z) (reversedBy_ reason : jsstring) (now : Z)
  | OpCreateReport (reasonType : jsstring) (subject : Subject)
      (reason reportedBy : jsstring) (now : Z)
  | OpResolveReports (actionId : Z) (reportIds : list Z) (createdBy : jsstring).

(** The store after an operation, whether it succeeded or failed. *)
Definition exec (op : Op) (l : Ledger) : Ledger :=
  match op with
  | OpTakeAction k s r c now => snd (takeAction k s r c now l)
  | OpReverseAction id by_ r now => snd (reverseAction id by_ r now l)
  | OpCreateReport t s r by_ now => snd (createReport t s r by_ now l)
  | OpResolveReports a ids c => snd (resolveReports a ids c l)
  end.

Definition execs (ops : list Op) (l : Ledger) : Ledger :=
  fold_left (fun acc op => exec op acc) ops l.

(** *** Vocabulary of the statements about the ledger *)

(** Some row of the table carries the id. *)
Definition knownAction (id : Z) (l : Ledger) : Prop :=
  exists a, In a (actions l) /\ action_id a = id.

Definition knownReport (id : Z) (l : Ledger) : Prop :=
  exists r, In r (reports l) /\ report_id r = id.

(** The reports the ids refer to, when all of them are known. *)
Fixpoint lookupReports (ids : list Z) (l : Ledger)
  : option (list ModerationReport) :=
  match ids with
  | [] => Some []
  | id :: ids' =>
      match lookupReport id l, lookupReports ids' l with
      | Some r, Some rs => Some (r :: rs)
      | _, _ => None
      end
  end.

(** A ledger with a reversed takedown (action 1), an active flag (action
    2), a report resolved by action 2 (report 1) and an open report
    (report 2). *)
Definition alice : Subject := AccountSubject (js "did:example:alice").

Definition admin : jsstring := js "did:example:admin".

Definition sampleLedger : Ledger :=
  execs [ OpTakeAction Takedown alice (js "spam") admin 100;
          OpTakeAction Flag alice (js "rude") admin 110;
          OpCreateReport (js "spam") alice (js "r1") (js "did:example:bob") 120;
          OpCreateReport (js "other") alice (js "r2") (js "did:example:carol") 130;
          OpReverseAction 1 admin (js "appeal") 140;
          OpResolveReports 2 [1] admin ]
        emptyLedger.

End Ledger.

(** ** The [getModerationAction] handler *)

Module Handler.

Import Ledger.

Section GetModerationAction.

(** [moderationService.views.actionDetail] is declared outside the
    modelled files: a view computed from the action and the store. *)
Variable ActionView : Type.
Variable actionDetail : ModerationAction -> Ledger -> ActionView.

Record Response : Type := mkResponse {
  encoding : jsstring;
  body : ActionView
}.

(** Modelled from the spec: [getActionOrThrow] of the moderation service
    is [getAction] of section 4.1. *)
Definition getActionOrThrow (id : Z) : M ModerationAction := getAction id.

Definition getModerationAction (id : Z) : M Response :=
  (result <- getActionOrThrow id ;;
   l <- get ;;
   ret {| encoding := js "application/json";
          body := actionDetail result l |})%se.

End GetModerationAction.

End Handler.

(** ** Directives *)

Module Directives.

Import Ledger.

(** Modelled from the spec: a directive set (section 3); the resolution
    engine is not among the sources. *)
Record DirectiveSet : Type := mkDirectives {
  filter : bool;
  blur : bool;
  noOverride : bool;
  alert : bool
}.

Inductive EntityKind : Type := EAccount | EProfile | EAvatar.

(** Modelled from the spec: "no directive" is all-false (section 4.4,
    step 5). *)
Definition noDirective : DirectiveSet :=
  {| filter := false; blur := false; noOverride := false; alert := false |}.

(** Modelled from the spec: most-restrictive-wins (section 4.4, step 4):
    [filter], [blur] and [alert] are OR'd, and [noOverride] is true if any
    contribution set it. *)
Definition merge (d1 d2 : DirectiveSet) : DirectiveSet :=
  {| filter := filter d1 || filter d2;
     blur := blur d1 || blur d2;
     noOverride := noOverride d1 || noOverride d2;
     alert := alert d1 || alert d2 |}.

Section Resolution.

(** The policy table of step 3: what an action contributes to an entity
    kind. The specification gives examples of its entries only. *)
Variable policy : ModerationAction -> EntityKind -> DirectiveSet.

(** Modelled from the spec: step 3 for the active actions handed to the
    engine. *)
Definition contributions (entity : EntityKind)
    (active : list ModerationAction) : list DirectiveSet :=
  map (fun a => policy a entity) (List.filter isActive active).

(** Modelled from the spec: step 4, combining the contributions in the
    order in which they arrive. *)
Definition mergeAll (cs : list DirectiveSet) : DirectiveSet :=
  fold_left merge cs noDirective.

Definition resolveEntity (entity : EntityKind)
    (active : list ModerationAction) : DirectiveSet :=
  mergeAll (contributions entity active).

End Resolution.

(** *** Sample contributions *)

(** A policy with the entries the specification spells out: a takedown of
    an account covers the three entities and cannot be lifted, a flag on a
    record blurs the profile entity only, and every other action has no
    visible effect. *)
Definition samplePolicy (a : ModerationAction) (e : EntityKind)
  : DirectiveSet :=
  match action_kind a, action_subject a, e with
  | Takedown, AccountSubject _, EAccount =>
      {| filter := true; blur := true; noOverride := true; alert := false |}
  | Takedown, AccountSubject _, _ =>
      {| filter := false; blur := true; noOverride := true; alert := false |}
  | Flag, RecordSubject _ _, EProfile =>
      {| filter := false; blur := true; noOverride := false; alert := false |}
  | _, _, _ => noDirective
  end.

Definition sampleActions : list ModerationAction :=
  [ mkAction 1 Flag (RecordSubject (js "at://post") (js "cid")) (js "rude")
      admin 100 None None None;
    mkAction 2 Takedown alice (js "spam") admin 110 None None None;
    mkAction 3 Takedown alice (js "old") admin 90
      (Some admin) (Some 95) (Some (js "appeal")) ].

End Directives.

(** ** The seed client: accounts and records *)

Module SeedRecords.

(** What a wrapper can throw: the [TypeError] of reading a property of
    [undefined], or an [Error] raised by the wrapper, by a constructor or
    by the agent. *)
Inductive Exn : Type :=
  | TypeError
  | Raised (e : JsError).

(** The types and functions the client takes from other packages
    ([@atproto/uri], [multiformats], [@atproto/lexicon], the lexicon types)
    and the world outside the client, with its clock. *)
Class Externals : Type := {
  AtUri : Type;
  CID : Type;
  BlobRef : Type;
  Facet : Type;
  Bytes : Type;
  ReasonType : Type;
  ReportSubject : Type;
  ReportData : Type;
  (** [new AtUri(s)] and [CID.parse(s)], which throw on malformed text. *)
  parseAtUri : jsstring -> JsError + AtUri;
  AtUri_toString : AtUri -> jsstring;
  AtUri_rkey : AtUri -> jsstring;
  parseCID : jsstring -> JsError + CID;
  CID_toString : CID -> jsstring;
  Env : Type;
  (** [new Date().toISOString()]. *)
  isoNow : Env -> jsstring
}.

Section Client.

Context `{Externals}.

(** The objects built for request bodies. Properties keep their insertion
    order. *)
#[warnings="-register-all"]
Inductive Value : Type :=
  | VUndefined
  | VString (s : jsstring)
  | VBlob (b : BlobRef)
  | VFacet (f : Facet)
  | VArray (items : list Value)
  | VObject (props : list (jsstring * Value)).

Definition Obj : Type := list (jsstring * Value).

Definition truthyV (v : Value) : bool :=
  match v with
  | VUndefined => false
  | VString s => negb (jsstring_eqb s [])
  | _ => true
  end.

(** [o[k] = v]: an existing property keeps its place. *)
Fixpoint set_prop (k : jsstring) (v : Value) (o : Obj) : Obj :=
  match o with
  | [] => [(k, v)]
  | (k', v') :: o' =>
      if jsstring_eqb k' k then (k, v) :: o' else (k', v') :: set_prop k v o'
  end.

(** [o[k]]. *)
Fixpoint get_prop (k : jsstring) (o : Obj) : Value :=
  match o with
  | [] => VUndefined
  | (k', v') :: o' => if jsstring_eqb k' k then v' else get_prop k o'
  end.

(** [{...base, ...overrides}]; spreading [undefined] adds nothing. *)
Definition spread (base : Obj) (overrides : option Obj) : Obj :=
  match overrides with
  | None => base
  | Some ov => fold_left (fun o kv => set_prop (fst kv) (snd kv) o) ov base
  end.

Definition propsOf (v : Value) : option Obj :=
  match v with
  | VObject props => Some props
  | _ => None
  end.

(** *** [RecordRef] *)

Record RecordRef : Type := mkRecordRef { uri : AtUri; cid : CID }.

(** [new RecordRef(uri, cid)]: both arguments are printed and parsed
    again. *)
Definition new_RecordRef (u : AtUri + jsstring) (c : CID + jsstring)
  : JsError + RecordRef :=
  match parseAtUri (match u with inl a => AtUri_toString a | inr s => s end) with
  | inl e => inl e
  | inr a =>
      match parseCID (match c with inl x => CID_toString x | inr s => s end) with
      | inl e => inl e
      | inr x => inr {| uri := a; cid := x |}
      end
  end.

Definition uriStr (r : RecordRef) : jsstring := AtUri_toString (uri r).

Definition cidStr (r : RecordRef) : jsstring := CID_toString (cid r).

Definition raw (r : RecordRef) : Value :=
  VObject [(js "uri", VString (uriStr r)); (js "cid", VString (cidStr r))].

(** *** The tables of the client *)

Record Account : Type := mkAccount {
  did : jsstring;
  accessJwt : jsstring;
  refreshJwt : jsstring;
  handle : jsstring;
  email : jsstring;
  password : jsstring
}.

Record ImageRef : Type := mkImageRef { image : BlobRef; alt : jsstring }.

Record Profile : Type := mkProfile {
  displayName : jsstring;
  description : jsstring;
  avatar : BlobRef;
  profile_ref : RecordRef
}.

Record Post : Type := mkPost {
  post_text : jsstring;
  post_ref : RecordRef;
  post_images : list ImageRef;
  post_quote : option RecordRef
}.

Record Reply : Type := mkReply { reply_text : jsstring; reply_ref : RecordRef }.

(** The objects used as maps are finite maps on their keys; the keys are
    DIDs, short names and URIs, none of which names a property that every
    object inherits. *)
Record SeedClient : Type := mkSeedClient {
  accounts : gmap jsstring Account;
  profiles : gmap jsstring Profile;
  follows : gmap jsstring (gmap jsstring RecordRef);
  posts : gmap jsstring (list Post);
  likes : gmap jsstring (gmap jsstring AtUri);
  replies : gmap jsstring (list Reply);
  reposts : gmap jsstring (list RecordRef);
  dids : gmap jsstring jsstring
}.

(** The constructor. *)
Definition new_SeedClient : SeedClient :=
  {| accounts := ∅; profiles := ∅; follows := ∅; posts := ∅;
     likes := ∅; replies := ∅; reposts := ∅; dids := ∅ |}.

Definition set_accounts (v : gmap jsstring Account) (c : SeedClient) :=
  {| accounts := v; profiles := profiles c; follows := follows c;
     posts := posts c; likes := likes c; replies := replies c;
     reposts := reposts c; dids := dids c |}.

Definition set_profiles (v : gmap jsstring Profile) (c : SeedClient) :=
  {| accounts := accounts c; profiles := v; follows := follows c;
     posts := posts c; likes := likes c; replies := replies c;
     reposts := reposts c; dids := dids c |}.

Definition set_follows (v : gmap jsstring (gmap jsstring RecordRef))
    (c : SeedClient) :=
  {| accounts := accounts c; profiles := profiles c; follows := v;
     posts := posts c; likes := likes c; replies := replies c;
     reposts := reposts c; dids := dids c |}.

Definition set_posts (v : gmap jsstring (list Post)) (c : SeedClient) :=
  {| accounts := accounts c; profiles := profiles c; follows := follows c;
     posts := v; likes := likes c; replies := replies c;
     reposts := reposts c; dids := dids c |}.

Definition set_likes (v : gmap jsstring (gmap jsstring AtUri))
    (c : SeedClient) :=
  {| accounts := accounts c; profiles := profiles c; follows := follows c;
     posts := posts c; likes := v; replies := replies c;
     reposts := reposts c; dids := dids c |}.

Definition set_replies (v : gmap jsstring (list Reply)) (c : SeedClient) :=
  {| accounts := accounts c; profiles := profiles c; follows := follows c;
     posts := posts c; likes := likes c; replies := v;
     reposts := reposts c; dids := dids c |}.

Definition set_reposts (v : gmap jsstring (list RecordRef)) (c : SeedClient) :=
  {| accounts := accounts c; profiles := profiles c; follows := follows c;
     posts := posts c; likes := likes c; replies := replies c;
     reposts := v; dids := dids c |}.

Definition set_dids (v : gmap jsstring jsstring) (c : SeedClient) :=
  {| accounts := accounts c; profiles := profiles c; follows := follows c;
     posts := posts c; likes := likes c; replies := replies c;
     reposts := reposts c; dids := v |}.

(** [m[k] ??= v]. *)
Definition init_absent {V : Type} (k : jsstring) (v : V) (m : gmap jsstring V)
  : gmap jsstring V :=
  match m !! k with
  | Some _ => m
  | None => <[k := v]> m
  end.

(** *** Requests *)

Inductive Collection : Type :=
  | ProfileRecord | FollowRecord | PostRecord | LikeRecord | RepostRecord.

Record AccountOut : Type := mkAccountOut {
  out_did : jsstring;
  out_accessJwt : jsstring;
  out_refreshJwt : jsstring;
  out_handle : jsstring
}.

Record RecordOut : Type := mkRecordOut { out_uri : jsstring; out_cid : jsstring }.

(** The calls a wrapper awaits, indexed by what they resolve to: the
    procedures of the agent and [fs.readFile]. *)
Inductive Call : Type -> Type :=
  | CreateAccount (handle_ email_ password_ : jsstring) : Call AccountOut
  | UpdateHandle (handle_ : jsstring) (opts : Seed.CallOptions) : Call unit
  | CreateRecord (c : Collection) (repo : jsstring) (record : Obj)
      (headers : Seed.Headers) : Call RecordOut
  | DeleteRecord (c : Collection) (repo rkey : jsstring)
      (headers : Seed.Headers) : Call unit
  | UploadBlob (data : Bytes) (encoding : jsstring) (headers : Seed.Headers)
      : Call BlobRef
  | CreateReport (reasonType : ReasonType) (subject : ReportSubject)
      (reason : option jsstring) (opts : Seed.CallOptions) : Call ReportData
  | ReadFile (path : jsstring) : Call Bytes.

Inductive AnyCall : Type :=
  | anyCall (R : Type) (c : Call R).

Arguments anyCall {R} c.

(** How the world answers a call: it resolves or rejects, and moves on. *)
Variable respond : forall R, Call R -> Env -> (JsError + R) * Env.

(** The client, the world, the calls made so far, and the module variable
    [AVATAR_IMG]. *)
Record St : Type := mkSt {
  client : SeedClient;
  env : Env;
  calls : list AnyCall;
  AVATAR_IMG : option Bytes
}.

Definition M : Type -> Type := SE St Exn.

Definition perform {R : Type} (c : Call R) : M R :=
  fun st =>
    let '(r, e') := respond R c (env st) in
    (match r with
     | inl e => inl (Raised e)
     | inr x => inr x
     end,
     {| client := client st; env := e'; calls := calls st ++ [anyCall c];
        AVATAR_IMG := AVATAR_IMG st |}).

Definition this : M SeedClient := fun st => (inr (client st), st).

Definition update (f : SeedClient -> SeedClient) : M unit :=
  fun st =>
    (inr tt, {| client := f (client st); env := env st; calls := calls st;
                AVATAR_IMG := AVATAR_IMG st |}).

Definition newDate : M jsstring := fun st => (inr (isoNow (env st)), st).

Definition construct {A : Type} (r : JsError + A) : M A :=
  match r with
  | inl e => throw (Raised e)
  | inr a => ret a
  end.

(** [SeedClient.getHeaders(jwt)]. *)
Definition static_getHeaders (jwt : jsstring) : Seed.Headers :=
  {| Seed.authorization := js "Bearer " ++ jwt |}.

(** [this.getHeaders(did)]. *)
Definition getHeaders (did_ : jsstring) : M Seed.Headers :=
  (c <- this ;;
   match accounts c !! did_ with
   | None => throw TypeError
   | Some a => ret (static_getHeaders (accessJwt a))
   end)%se.

Definition jsonOpts (h : Seed.Headers) : Seed.CallOptions :=
  {| Seed.encoding := js "application/json"; Seed.headers := h |}.

Definition createAccount (shortName : jsstring)
    (handle_ email_ password_ : jsstring) : M Account :=
  (account <- perform (CreateAccount handle_ email_ password_) ;;
   update (fun c => set_dids (<[shortName := out_did account]> (dids c)) c) ;;;
   let stored := {| did := out_did account;
                    accessJwt := out_accessJwt account;
                    refreshJwt := out_refreshJwt account;
                    handle := out_handle account;
                    email := email_;
                    password := password_ |} in
   update (fun c => set_accounts (<[out_did account := stored]> (accounts c)) c) ;;;
   ret stored)%se.

Definition updateHandle (by_ handle_ : jsstring) : M unit :=
  (h <- getHeaders by_ ;;
   perform (UpdateHandle handle_ (jsonOpts h)))%se.

(** [fromUser || by]. *)
Definition orElse (fromUser : option jsstring) (by_ : jsstring) : jsstring :=
  match fromUser with
  | Some u => if jsstring_eqb u [] then by_ else u
  | None => by_
  end.

Definition avatarPath : jsstring :=
  js "tests/image/fixtures/key-portrait-small.jpg".

(** [AVATAR_IMG ??= await fs.readFile(...)]. *)
Definition avatarImage : M Bytes :=
  fun st =>
    match AVATAR_IMG st with
    | Some b => (inr b, st)
    | None =>
        match perform (ReadFile avatarPath) st with
        | (inl e, st') => (inl e, st')
        | (inr b, st') =>
            (inr b, {| client := client st'; env := env st';
                       calls := calls st'; AVATAR_IMG := Some b |})
        end
    end.

Definition createProfile (by_ displayName_ description_ : jsstring)
    (fromUser : option jsstring) : M Profile :=
  (img <- avatarImage ;;
   h1 <- getHeaders (orElse fromUser by_) ;;
   avatarBlob <- perform (UploadBlob img (js "image/jpeg") h1) ;;
   h2 <- getHeaders (orElse fromUser by_) ;;
   res <- perform (CreateRecord ProfileRecord by_
                     [(js "displayName", VString displayName_);
                      (js "description", VString description_);
                      (js "avatar", VBlob avatarBlob)] h2) ;;
   ref <- construct (new_RecordRef (inr (out_uri res)) (inr (out_cid res))) ;;
   let p := {| displayName := displayName_; description := description_;
               avatar := avatarBlob; profile_ref := ref |} in
   update (fun c => set_profiles (<[by_ := p]> (profiles c)) c) ;;;
   ret p)%se.

Definition follow (from to : jsstring) (overrides : option Obj) : M RecordRef :=
  (now <- newDate ;;
   let record := spread [(js "subject", VString to);
                         (js "createdAt", VString now)] overrides in
   h <- getHeaders from ;;
   res <- perform (CreateRecord FollowRecord from record h) ;;
   update (fun c => set_follows (init_absent from ∅ (follows c)) c) ;;;
   ref <- construct (new_RecordRef (inr (out_uri res)) (inr (out_cid res))) ;;
   update (fun c => set_follows (alter (insert to ref) from (follows c)) c) ;;;
   ret ref)%se.

Definition followDoesNotExist : JsError := Error (js "follow does not exist").

Definition unfollow (from to : jsstring) : M unit :=
  (c <- this ;;
   match follows c !! from with
   | None => throw TypeError
   | Some inner =>
       match inner !! to with
       | None => throw (Raised followDoesNotExist)
       | Some f =>
           h <- getHeaders from ;;
           perform (DeleteRecord FollowRecord from (AtUri_rkey (uri f)) h) ;;;
           update (fun c => set_follows (alter (delete to) from (follows c)) c)
       end
   end)%se.

Definition imageValue (i : ImageRef) : Value :=
  VObject [(js "image", VBlob (image i)); (js "alt", VString (alt i))].

Definition imagesEmbed (images : list ImageRef) : Value :=
  VObject [(js "$type", VString (js "app.bsky.embed.images"));
           (js "images", VArray (map imageValue images))].

Definition optArray {A : Type} (f : A -> Value) (xs : option (list A)) : Value :=
  match xs with
  | None => VUndefined
  | Some l => VArray (map f l)
  end.

(** The [embed] of [post], from [imageEmbed] and [recordEmbed]. *)
Definition postEmbed (images : option (list ImageRef))
    (quote : option RecordRef) : Value :=
  let imageEmbed :=
    match images with
    | None => VUndefined
    | Some imgs => imagesEmbed imgs
    end in
  let recordEmbed :=
    match quote with
    | None => VUndefined
    | Some q =>
        VObject [(js "record",
                  VObject [(js "uri", VString (uriStr q));
                           (js "cid", VString (cidStr q))])]
    end in
  if truthyV imageEmbed && truthyV recordEmbed then
    VObject [(js "$type", VString (js "app.bsky.embed.recordWithMedia"));
             (js "record", recordEmbed);
             (js "media", imageEmbed)]
  else if truthyV recordEmbed then
    VObject (spread [(js "$type", VString (js "app.bsky.embed.record"))]
               (propsOf recordEmbed))
  else imageEmbed.

Definition post (by_ text : jsstring) (facets : option (list Facet))
    (images : option (list ImageRef)) (quote : option RecordRef)
    (overrides : option Obj) : M Post :=
  (let embed := postEmbed images quote in
   now <- newDate ;;
   let record := spread [(js "text", VString text);
                         (js "facets", optArray VFacet facets);
                         (js "embed", embed);
                         (js "createdAt", VString now)] overrides in
   h <- getHeaders by_ ;;
   res <- perform (CreateRecord PostRecord by_ record h) ;;
   update (fun c => set_posts (init_absent by_ [] (posts c)) c) ;;;
   ref <- construct (new_RecordRef (inr (out_uri res)) (inr (out_cid res))) ;;
   let p := {| post_text := text; post_ref := ref;
               post_images := match images with Some l => l | None => [] end;
               post_quote := quote |} in
   update (fun c => set_posts (alter (fun l => l ++ [p]) by_ (posts c)) c) ;;;
   ret p)%se.

Definition deletePost (by_ : jsstring) (u : AtUri) : M unit :=
  (h <- getHeaders by_ ;;
   perform (DeleteRecord PostRecord by_ (AtUri_rkey u) h))%se.

Definition uploadFile (by_ filePath encoding : jsstring) : M ImageRef :=
  (file <- perform (ReadFile filePath) ;;
   h <- getHeaders by_ ;;
   blob <- perform (UploadBlob file encoding h) ;;
   ret {| image := blob; alt := filePath |})%se.

Definition like (by_ : jsstring) (subject : RecordRef) (overrides : option Obj)
  : M AtUri :=
  (now <- newDate ;;
   let record := spread [(js "subject", raw subject);
                         (js "createdAt", VString now)] overrides in
   h <- getHeaders by_ ;;
   res <- perform (CreateRecord LikeRecord by_ record h) ;;
   update (fun c => set_likes (init_absent by_ ∅ (likes c)) c) ;;;
   u <- construct (parseAtUri (out_uri res)) ;;
   update (fun c => set_likes
                      (alter (insert (uriStr subject) u) by_ (likes c)) c) ;;;
   ret u)%se.

Definition reply (by_ : jsstring) (root parent : RecordRef) (text : jsstring)
    (facets : option (list Facet)) (images : option (list ImageRef))
  : M Reply :=
  (let embed := match images with
                | Some imgs => imagesEmbed imgs
                | None => VUndefined
                end in
   now <- newDate ;;
   let record := [(js "text", VString text);
                  (js "reply", VObject [(js "root", raw root);
                                        (js "parent", raw parent)]);
                  (js "facets", optArray VFacet facets);
                  (js "embed", embed);
                  (js "createdAt", VString now)] in
   h <- getHeaders by_ ;;
   res <- perform (CreateRecord PostRecord by_ record h) ;;
   update (fun c => set_replies (init_absent by_ [] (replies c)) c) ;;;
   ref <- construct (new_RecordRef (inr (out_uri res)) (inr (out_cid res))) ;;
   let r := {| reply_text := text; reply_ref := ref |} in
   update (fun c => set_replies (alter (fun l => l ++ [r]) by_ (replies c)) c) ;;;
   ret r)%se.

Definition repost (by_ : jsstring) (subject : RecordRef) : M RecordRef :=
  (now <- newDate ;;
   let record := [(js "subject", raw subject);
                  (js "createdAt", VString now)] in
   h <- getHeaders by_ ;;
   res <- perform (CreateRecord RepostRecord by_ record h) ;;
   update (fun c => set_reposts (init_absent by_ [] (reposts c)) c) ;;;
   ref <- construct (new_RecordRef (inr (out_uri res)) (inr (out_cid res))) ;;
   update (fun c => set_reposts (alter (fun l => l ++ [ref]) by_ (reposts c)) c) ;;;
   ret ref)%se.

Definition createReport (reasonType : ReasonType) (subject : ReportSubject)
    (reason : option jsstring) (reportedBy : jsstring) : M ReportData :=
  (h <- getHeaders reportedBy ;;
   perform (CreateReport reasonType subject reason (jsonOpts h)))%se.

(** *** Vocabulary of the statements about the tables *)

(** [this.follows[from]?.[to]] and [this.likes[by]?.[uri]]. *)
Definition followsAt (c : SeedClient) (from to : jsstring) : option RecordRef :=
  match follows c !! from with
  | Some inner => inner !! to
  | None => None
  end.

Definition likesAt (c : SeedClient) (by_ u : jsstring) : option AtUri :=
  match likes c !! by_ with
  | Some inner => inner !! u
  | None => None
  end.

(** [this.posts[by] ?? []], and the same for replies and reposts. *)
Definition postsOf (c : SeedClient) (by_ : jsstring) : list Post :=
  match posts c !! by_ with Some l => l | None => [] end.

Definition repliesOf (c : SeedClient) (by_ : jsstring) : list Reply :=
  match replies c !! by_ with Some l => l | None => [] end.

Definition repostsOf (c : SeedClient) (by_ : jsstring) : list RecordRef :=
  match reposts c !! by_ with Some l => l | None => [] end.

(** Two clients hold the same data; an empty container that one of them
    has and the other lacks does not count. *)
Definition sameContents (c1 c2 : SeedClient) : Prop :=
  accounts c1 = accounts c2 /\ profiles c1 = profiles c2 /\
  dids c1 = dids c2 /\
  (forall f t, followsAt c1 f t = followsAt c2 f t) /\
  (forall b u, likesAt c1 b u = likesAt c2 b u) /\
  (forall b, postsOf c1 b = postsOf c2 b) /\
  (forall b, repliesOf c1 b = repliesOf c2 b) /\
  (forall b, repostsOf c1 b = repostsOf c2 b).

(** The value the overrides give to property [k], if any: the last one. *)
Definition overridden (k : jsstring) (ov : Obj) : option Value :=
  fold_left (fun acc kv => if jsstring_eqb (fst kv) k then Some (snd kv) else acc)
    ov None.

Definition isReadFile (c : AnyCall) : bool :=
  match c with
  | anyCall (ReadFile _) => true
  | anyCall _ => false
  end.

Definition uploads (b : Bytes) (c : AnyCall) : Prop :=
  match c with
  | anyCall (UploadBlob data _ _) => data = b
  | anyCall _ => True
  end.

End Client.

Arguments anyCall {_ R} c.

(** *** A sample world *)

(** URIs and CIDs are kept as text and must be non-empty; the record key
    is what follows the last slash of the collection prefix. The server
    numbers the records it creates. *)
Definition nonEmpty (what : string) (s : jsstring) : JsError + jsstring :=
  if jsstring_eqb s [] then inl (Error (js what)) else inr s.

Definition sampleExternals : Externals :=
  {| AtUri := jsstring; CID := jsstring; BlobRef := jsstring; Facet := unit;
     Bytes := jsstring; ReasonType := jsstring; ReportSubject := jsstring;
     ReportData := Z;
     parseAtUri := nonEmpty "bad uri";
     AtUri_toString := fun u => u;
     AtUri_rkey := fun u => drop 5 u;
     parseCID := nonEmpty "bad cid";
     CID_toString := fun c => c;
     Env := N;
     isoNow := fun _ => js "2023-05-01T00:00:00.000Z" |}.

Definition sampleRespond (R : Type) (c : @Call sampleExternals R) (n : N)
  : (JsError + R) * N :=
  match c in Call R' return (JsError + R') * N with
  | CreateAccount h e p =>
      if jsstring_eqb h [] then (inl (Error (js "bad handle")), n)
      else (inr {| out_did := js "did:example:" ++ h;
                   out_accessJwt := js "jwt-" ++ h;
                   out_refreshJwt := js "refresh-" ++ h;
                   out_handle := h |}, n)
  | UpdateHandle _ _ => (inr tt, n)
  | CreateRecord _ repo _ _ =>
      (inr {| out_uri := js "at://" ++ repo ++ [47%N; (48 + n)%N];
              out_cid := js "bafy" |}, (n + 1)%N)
  | DeleteRecord _ _ _ _ => (inr tt, n)
  | UploadBlob data _ _ => (inr (js "blob:" ++ data), n)
  | CreateReport _ _ _ _ => (inr 1, n)
  | ReadFile path =>
      if jsstring_eqb path (js "missing.jpg")
      then (inl (Error (js "ENOENT")), n)
      else (inr (js "bytes of " ++ path), n)
  end.

Definition st0 : @St sampleExternals :=
  @mkSt sampleExternals new_SeedClient 0%N [] None.

Definition alice : jsstring := js "did:example:alice.test".

Definition bob : jsstring := js "did:example:bob.test".

(** After [createAccount] for alice and bob. *)
Definition stAccounts : @St sampleExternals :=
  snd (createAccount sampleRespond (js "bob") (js "bob.test") (js "b@x")
         (js "pw")
         (snd (createAccount sampleRespond (js "alice") (js "alice.test")
                 (js "a@x") (js "pw") st0))).

(** After alice has followed bob. *)
Definition stFollowing : @St sampleExternals :=
  snd (follow sampleRespond alice bob None stAccounts).

End SeedRecords.

(** ** [ServerConfig]: the environment and the getters *)

Module ConfigEnv.

(** [s.split(sep)] for a separator of one code unit. *)
Fixpoint splitOn (sep : N) (s : jsstring) : list jsstring :=
  match s with
  | [] => [[]]
  | c :: s' =>
      if (c =? sep)%N then [] :: splitOn sep s'
      else match splitOn sep s' with
           | piece :: pieces => (c :: piece) :: pieces
           | [] => [[c]]
           end
  end.

Definition comma : N := 44%N.

(** [v || d] and [v || undefined] for a value that is a string or
    [undefined]. *)
Definition orDefault (v : option jsstring) (d : jsstring) : jsstring :=
  match v with
  | Some s => if truthy (JString s) then s else d
  | None => d
  end.

Definition orUndefined (v : option jsstring) : option jsstring :=
  match v with
  | Some s => if truthy (JString s) then Some s else None
  | None => None
  end.

(** [nonemptyString]. *)
Definition nonemptyString (str : option jsstring) : option jsstring :=
  match str with
  | None => None
  | Some s => if (Z.of_nat (length s) =? 0) then None else Some s
  end.

(** [a || b] for two values that are strings or [undefined]. *)
Definition orOpt (a b : option jsstring) : option jsstring :=
  match orUndefined a with
  | Some s => Some s
  | None => b
  end.

Definition strictEq (v : option jsstring) (s : jsstring) : bool :=
  match v with
  | Some x => jsstring_eqb x s
  | None => false
  end.

Section Values.

(** Numbers stay abstract: the configuration only stores them and prints
    the port. [HOUR], [DAY] and [parseIntWithFallback] come from
    [@atproto/common]. *)
Variable Number : Type.
Variable showNumber : Number -> jsstring.
Variable num : Z -> Number.
Variables HOUR DAY : Number.
Variable parseIntWithFallback :
  forall T : Type, option jsstring -> T -> Number + T.

Record ServerConfigValues : Type := mkValues {
  debugMode : option bool;
  version : jsstring;
  publicUrl : option jsstring;
  scheme : jsstring;
  port : option Number;
  hostname : jsstring;
  dbPostgresUrl : option jsstring;
  dbPostgresSchema : option jsstring;
  blobstoreLocation : option jsstring;
  blobstoreTmp : option jsstring;
  jwtSecret : jsstring;
  didPlcUrl : jsstring;
  didCacheStaleTTL : Number;
  didCacheMaxTTL : Number;
  serverDid : jsstring;
  recoveryKey : jsstring;
  adminPassword : jsstring;
  moderatorPassword : option jsstring;
  inviteRequired : bool;
  userInviteInterval : option Number;
  privacyPolicyUrl : option jsstring;
  termsOfServiceUrl : option jsstring;
  databaseLocation : option jsstring;
  availableUserDomains : list jsstring;
  appUrlPasswordReset : jsstring;
  emailSmtpUrl : option jsstring;
  emailNoReplyAddress : jsstring;
  maxSubscriptionBuffer : Number;
  repoBackfillLimitMs : Number;
  sequencerLeaderLockId : option Number;
  bskyAppViewEndpoint : option jsstring;
  bskyAppViewDid : option jsstring;
  crawlersToNotify : option (list jsstring)
}.

(** [Partial<ServerConfigValues>]: a property is absent or holds a value of
    the type of the field. *)
Record Overrides : Type := mkOverrides {
  o_debugMode : option bool;
  o_version : option jsstring;
  o_publicUrl : option jsstring;
  o_scheme : option jsstring;
  o_port : option Number;
  o_hostname : option jsstring;
  o_dbPostgresUrl : option jsstring;
  o_dbPostgresSchema : option jsstring;
  o_blobstoreLocation : option jsstring;
  o_blobstoreTmp : option jsstring;
  o_jwtSecret : option jsstring;
  o_didPlcUrl : option jsstring;
  o_didCacheStaleTTL : option Number;
  o_didCacheMaxTTL : option Number;
  o_serverDid : option jsstring;
  o_recoveryKey : option jsstring;
  o_adminPassword : option jsstring;
  o_moderatorPassword : option jsstring;
  o_inviteRequired : option bool;
  o_userInviteInterval : option (option Number);
  o_privacyPolicyUrl : option jsstring;
  o_termsOfServiceUrl : option jsstring;
  o_databaseLocation : option jsstring;
  o_availableUserDomains : option (list jsstring);
  o_appUrlPasswordReset : option jsstring;
  o_emailSmtpUrl : option jsstring;
  o_emailNoReplyAddress : option jsstring;
  o_maxSubscriptionBuffer : option Number;
  o_repoBackfillLimitMs : option Number;
  o_sequencerLeaderLockId : option Number;
  o_bskyAppViewEndpoint : option jsstring;
  o_bskyAppViewDid : option jsstring;
  o_crawlersToNotify : option (list jsstring)
}.

Record ServerConfig : Type := mkConfig { cfg : ServerConfigValues }.

(** The constructor: the check of [Config.new_ServerConfig] on the
    domains. *)
Definition new_ServerConfig (c : ServerConfigValues) : JsError + ServerConfig :=
  match Config.new_ServerConfig
          {| Config.availableUserDomains := availableUserDomains c |} with
  | inl e => inl e
  | inr _ => inr {| cfg := c |}
  end.

(** A required field of the literal, replaced when [overrides] has it. *)
Definition over {T : Type} (o : option T) (v : T) : T :=
  match o with
  | Some x => x
  | None => v
  end.

(** An optional field of the literal, replaced when [overrides] has it. *)
Definition overOpt {T : Type} (o : option T) (v : option T) : option T :=
  match o with
  | Some x => Some x
  | None => v
  end.

Definition number (r : Number + Number) : Number :=
  match r with
  | inl n => n
  | inr n => n
  end.

Definition numberOrNone (r : Number + unit) : option Number :=
  match r with
  | inl n => Some n
  | inr _ => None
  end.

Definition noServerDid : JsError :=
  Error (js "No value provided for process.env.SERVER_DID").

Definition noRecoveryKey : JsError :=
  Error (js "No value provided for process.env.RECOVERY_KEY").

(** [ServerConfig.readEnv(overrides)], with [process.env] as a finite map. *)
Definition readEnv (env : gmap jsstring jsstring) (ov : Overrides)
  : JsError + ServerConfig :=
  let debugMode_ := strictEq (env !! js "DEBUG_MODE") (js "1") in
  let version_ := orDefault (env !! js "PDS_VERSION") (js "0.0.0") in
  let publicUrl_ := orUndefined (env !! js "PUBLIC_URL") in
  let hostname_ := orDefault (env !! js "HOSTNAME") (js "localhost") in
  let scheme_ :=
    match env !! js "TLS" with
    | Some tls => if jsstring_eqb tls (js "1") then js "https" else js "http"
    | None =>
        if jsstring_eqb hostname_ (js "localhost") then js "http"
        else js "https"
    end in
  let port_ := number (parseIntWithFallback _ (env !! js "PORT") (num 2583)) in
  let jwtSecret_ := orDefault (env !! js "JWT_SECRET") (js "jwt_secret") in
  let didPlcUrl_ :=
    orDefault (env !! js "DID_PLC_URL") (js "http://localhost:2582") in
  let didCacheStaleTTL_ :=
    number (parseIntWithFallback _ (env !! js "DID_CACHE_STALE_TTL") HOUR) in
  let didCacheMaxTTL_ :=
    number (parseIntWithFallback _ (env !! js "DID_CACHE_MAX_TTL") DAY) in
  match orOpt (o_serverDid ov) (env !! js "SERVER_DID") with
  | None => inl noServerDid
  | Some serverDid_ =>
  match orOpt (o_recoveryKey ov) (env !! js "RECOVERY_KEY") with
  | None => inl noRecoveryKey
  | Some recoveryKey_ =>
  let adminPassword_ := orDefault (env !! js "ADMIN_PASSWORD") (js "admin") in
  let moderatorPassword_ := orUndefined (env !! js "MODERATOR_PASSWORD") in
  let inviteRequired_ := strictEq (env !! js "INVITE_REQUIRED") (js "true") in
  let userInviteInterval_ :=
    numberOrNone
      (parseIntWithFallback _ (env !! js "USER_INVITE_INTERVAL") tt) in
  let privacyPolicyUrl_ := env !! js "PRIVACY_POLICY_URL" in
  let termsOfServiceUrl_ := env !! js "TERMS_OF_SERVICE_URL" in
  let databaseLocation_ := env !! js "DATABASE_LOC" in
  let blobstoreLocation_ := env !! js "BLOBSTORE_LOC" in
  let blobstoreTmp_ := env !! js "BLOBSTORE_TMP" in
  let availableUserDomains_ :=
    match orUndefined (env !! js "AVAILABLE_USER_DOMAINS") with
    | Some s => splitOn comma s
    | None => []
    end in
  let appUrlPasswordReset_ :=
    orDefault (env !! js "APP_URL_PASSWORD_RESET") (js "app://password-reset") in
  let emailSmtpUrl_ := orUndefined (env !! js "EMAIL_SMTP_URL") in
  let emailNoReplyAddress_ :=
    orDefault (env !! js "EMAIL_NO_REPLY_ADDRESS") (js "noreply@blueskyweb.xyz") in
  let dbPostgresUrl_ := env !! js "DB_POSTGRES_URL" in
  let dbPostgresSchema_ := env !! js "DB_POSTGRES_SCHEMA" in
  let maxSubscriptionBuffer_ :=
    number (parseIntWithFallback _ (env !! js "MAX_SUBSCRIPTION_BUFFER")
              (num 500)) in
  let repoBackfillLimitMs_ :=
    number (parseIntWithFallback _ (env !! js "REPO_BACKFILL_LIMIT_MS") DAY) in
  let sequencerLeaderLockId_ :=
    numberOrNone
      (parseIntWithFallback _ (env !! js "SEQUENCER_LEADER_LOCK_ID") tt) in
  let bskyAppViewEndpoint_ :=
    nonemptyString (env !! js "BSKY_APP_VIEW_ENDPOINT") in
  let bskyAppViewDid_ := nonemptyString (env !! js "BSKY_APP_VIEW_DID") in
  let crawlersToNotify_ :=
    match env !! js "CRAWLERS_TO_NOTIFY" with
    | Some s => if truthy (JString s) && (0 <? Z.of_nat (length s))
                then splitOn comma s else []
    | None => []
    end in
  new_ServerConfig
    {| debugMode := overOpt (o_debugMode ov) (Some debugMode_);
       version := over (o_version ov) version_;
       publicUrl := overOpt (o_publicUrl ov) publicUrl_;
       scheme := over (o_scheme ov) scheme_;
       hostname := over (o_hostname ov) hostname_;
       port := overOpt (o_port ov) (Some port_);
       dbPostgresUrl := overOpt (o_dbPostgresUrl ov) dbPostgresUrl_;
       dbPostgresSchema := overOpt (o_dbPostgresSchema ov) dbPostgresSchema_;
       blobstoreLocation := overOpt (o_blobstoreLocation ov) blobstoreLocation_;
       blobstoreTmp := overOpt (o_blobstoreTmp ov) blobstoreTmp_;
       jwtSecret := over (o_jwtSecret ov) jwtSecret_;
       recoveryKey := over (o_recoveryKey ov) recoveryKey_;
       didPlcUrl := over (o_didPlcUrl ov) didPlcUrl_;
       didCacheStaleTTL := over (o_didCacheStaleTTL ov) didCacheStaleTTL_;
       didCacheMaxTTL := over (o_didCacheMaxTTL ov) didCacheMaxTTL_;
       serverDid := over (o_serverDid ov) serverDid_;
       adminPassword := over (o_adminPassword ov) adminPassword_;
       moderatorPassword := overOpt (o_moderatorPassword ov) moderatorPassword_;
       inviteRequired := over (o_inviteRequired ov) inviteRequired_;
       userInviteInterval := over (o_userInviteInterval ov) userInviteInterval_;
       privacyPolicyUrl := overOpt (o_privacyPolicyUrl ov) privacyPolicyUrl_;
       termsOfServiceUrl := overOpt (o_termsOfServiceUrl ov) termsOfServiceUrl_;
       databaseLocation := overOpt (o_databaseLocation ov) databaseLocation_;
       availableUserDomains :=
         over (o_availableUserDomains ov) availableUserDomains_;
       appUrlPasswordReset := over (o_appUrlPasswordReset ov) appUrlPasswordReset_;
       emailSmtpUrl := overOpt (o_emailSmtpUrl ov) emailSmtpUrl_;
       emailNoReplyAddress := over (o_emailNoReplyAddress ov) emailNoReplyAddress_;
       maxSubscriptionBuffer :=
         over (o_maxSubscriptionBuffer ov) maxSubscriptionBuffer_;
       repoBackfillLimitMs := over (o_repoBackfillLimitMs ov) repoBackfillLimitMs_;
       sequencerLeaderLockId :=
         overOpt (o_sequencerLeaderLockId ov) sequencerLeaderLockId_;
       bskyAppViewEndpoint :=
         overOpt (o_bskyAppViewEndpoint ov) bskyAppViewEndpoint_;
       bskyAppViewDid := overOpt (o_bskyAppViewDid ov) bskyAppViewDid_;
       crawlersToNotify :=
         overOpt (o_crawlersToNotify ov) (Some crawlersToNotify_) |}
  end end.

(** *** Getters *)

Definition get_debugMode (c : ServerConfig) : bool :=
  match debugMode (cfg c) with
  | Some b => b
  | None => false
  end.

(** The template literal prints an absent port as [undefined]. *)
Definition get_internalUrl (c : ServerConfig) : jsstring :=
  scheme (cfg c) ++ js "://" ++ hostname (cfg c) ++ js ":" ++
  match port (cfg c) with
  | Some n => showNumber n
  | None => js "undefined"
  end.

Definition get_publicUrl (c : ServerConfig) : jsstring :=
  orDefault (publicUrl (cfg c)) (get_internalUrl c).

Definition get_privacyPolicyUrl (c : ServerConfig) : option jsstring :=
  match privacyPolicyUrl (cfg c) with
  | Some s =>
      if truthy (JString s) && startsWith s (js "/")
      then Some (get_publicUrl c ++ s)
      else Some s
  | None => None
  end.

Definition get_termsOfServiceUrl (c : ServerConfig) : option jsstring :=
  match termsOfServiceUrl (cfg c) with
  | Some s =>
      if truthy (JString s) && startsWith s (js "/")
      then Some (get_publicUrl c ++ s)
      else Some s
  | None => None
  end.

Definition get_useMemoryDatabase (c : ServerConfig) : bool :=
  match databaseLocation (cfg c) with
  | Some s => negb (truthy (JString s))
  | None => true
  end.

(** The domains [readEnv] hands to the constructor. *)
Definition domainsOf (env : gmap jsstring jsstring) (ov : Overrides)
  : list jsstring :=
  over (o_availableUserDomains ov)
    (match orUndefined (env !! js "AVAILABLE_USER_DOMAINS") with
     | Some s => splitOn comma s
     | None => []
     end).

Definition noOverrides : Overrides :=
  {| o_debugMode := None; o_version := None; o_publicUrl := None;
     o_scheme := None; o_port := None; o_hostname := None;
     o_dbPostgresUrl := None; o_dbPostgresSchema := None;
     o_blobstoreLocation := None; o_blobstoreTmp := None;
     o_jwtSecret := None; o_didPlcUrl := None; o_didCacheStaleTTL := None;
     o_didCacheMaxTTL := None; o_serverDid := None; o_recoveryKey := None;
     o_adminPassword := None; o_moderatorPassword := None;
     o_inviteRequired := None; o_userInviteInterval := None;
     o_privacyPolicyUrl := None; o_termsOfServiceUrl := None;
     o_databaseLocation := None; o_availableUserDomains := None;
     o_appUrlPasswordReset := None; o_emailSmtpUrl := None;
     o_emailNoReplyAddress := None; o_maxSubscriptionBuffer := None;
     o_repoBackfillLimitMs := None; o_sequencerLeaderLockId := None;
     o_bskyAppViewEndpoint := None; o_bskyAppViewDid := None;
     o_crawlersToNotify := None |}.

End Values.

(** *** A sample instance: integers printed in decimal *)

Definition showZ (z : Z) : jsstring :=
  js (NilZero.string_of_int (Z.to_int z)).

(** Accepts a string of decimal digits. *)
Definition parseDigits (s : jsstring) : option Z :=
  match s with
  | [] => None
  | _ =>
      fold_left
        (fun acc c =>
           match acc with
           | Some n =>
               if ((48 <=? c) && (c <=? 57))%N
               then Some (10 * n + Z.of_N (c - 48)) else None
           | None => None
           end) s (Some 0)
  end.

Definition sampleParseInt (T : Type) (v : option jsstring) (fallback : T)
  : Z + T :=
  match v with
  | Some s => match parseDigits s with
              | Some n => inl n
              | None => inr fallback
              end
  | None => inr fallback
  end.

Definition sampleReadEnv (env : gmap jsstring jsstring) (ov : Overrides Z)
  : JsError + ServerConfig Z :=
  readEnv Z (fun z => z) 3600000 86400000 sampleParseInt env ov.

Definition sampleEnv : gmap jsstring jsstring :=
  <[js "SERVER_DID" := js "did:example:pds"]>
    (<[js "RECOVERY_KEY" := js "did:key:zQ3sh"]>
       (<[js "AVAILABLE_USER_DOMAINS" := js ".test,.example"]>
          (<[js "HOSTNAME" := js "pds.example"]>
             (<[js "PRIVACY_POLICY_URL" := js "/privacy"]> ∅)))).

(** The configuration read from the sample environment. *)
Definition sampleConfig : ServerConfig Z :=
  Eval vm_compute in
    match sampleReadEnv sampleEnv (noOverrides Z) as r
          return match r with inr _ => ServerConfig Z | inl _ => unit end with
    | inr c => c
    | inl _ => tt
    end.

End ConfigEnv.

(** * Properties *)

(** ** JavaScript strings *)

Lemma startsWith_spec (hay needle : jsstring) :
  startsWith hay needle = true <-> exists post, hay = needle ++ post.
Proof.
  revert hay. induction needle as [|c needle IH]; intros hay; simpl.
  - split; [intros _; now exists hay | reflexivity].
  - destruct hay as [|d hay]; simpl.
    + split; [discriminate | intros [post H]; discriminate].
    + rewrite andb_true_iff, N.eqb_eq, IH. split.
      * intros [-> [post ->]]. now exists post.
      * intros [post H]. injection H as -> ->. split; [reflexivity | now exists post].
Qed.

Lemma startsWith_substring (hay needle : jsstring) :
  startsWith hay needle = true -> isSubstring needle hay.
Proof.
  intros H. apply startsWith_spec in H as [post ->]. now exists [], post.
Qed.

Lemma substring_cons (c : N) (hay needle : jsstring) :
  startsWith (c :: hay) needle = false ->
  (isSubstring needle (c :: hay) <-> isSubstring needle hay).
Proof.
  intros Hpre. split.
  - intros [pre [post H]]. destruct pre as [|p pre].
    + simpl in H. assert (startsWith (c :: hay) needle = true) as Ht
        by (apply startsWith_spec; now exists post).
      congruence.
    + injection H as _ ->. now exists pre, post.
  - intros [pre [post ->]]. now exists (c :: pre), post.
Qed.

Lemma indexOf_from_absent (hay needle : jsstring) (k : Z) :
  0 <= k ->
  (indexOf_from hay needle k = -1 <-> ~ isSubstring needle hay).
Proof.
  revert k. induction hay as [|c hay IH]; intros k Hk; simpl.
  - destruct (startsWith [] needle) eqn:Hpre.
    + split; [lia | intros Hn; destruct Hn; now apply startsWith_substring].
    + split; [intros _ | reflexivity].
      intros [pre [post H]]. destruct pre; [|discriminate].
      assert (startsWith [] needle = true) as Ht
        by (apply startsWith_spec; now exists post).
      congruence.
  - destruct (startsWith (c :: hay) needle) eqn:Hpre.
    + split; [lia | intros Hn; destruct Hn; now apply startsWith_substring].
    + rewrite (substring_cons _ _ _ Hpre). apply IH. lia.
Qed.

Lemma indexOf_absent (hay needle : jsstring) :
  indexOf hay needle = -1 <-> ~ isSubstring needle hay.
Proof. unfold indexOf. now apply indexOf_from_absent. Qed.

Lemma indexOf_from_found (hay needle : jsstring) (k : Z) :
  indexOf_from hay needle k <> -1 -> isSubstring needle hay.
Proof.
  revert k. induction hay as [|c hay IH]; intros k; simpl.
  - destruct (startsWith [] needle) eqn:Hpre; [|congruence].
    intros _. now apply startsWith_substring.
  - destruct (startsWith (c :: hay) needle) eqn:Hpre.
    + intros _. now apply startsWith_substring.
    + intros H. apply (substring_cons _ _ _ Hpre). now apply (IH (k + 1)).
Qed.

Lemma indexOf_present (hay needle : jsstring) :
  indexOf hay needle <> -1 <-> isSubstring needle hay.
Proof.
  split.
  - apply indexOf_from_found.
  - intros Hs Hi. now apply indexOf_absent in Hi.
Qed.

Lemma slice_prefix (s : jsstring) (n : nat) :
  slice s 0 (Z.of_nat n) = take n s.
Proof.
  unfold slice.
  replace (0 <? 0) with false by reflexivity.
  replace (Z.of_nat n <? 0) with false by (symmetry; apply Z.ltb_ge; lia).
  rewrite (Z.min_l 0) by lia. rewrite Z.sub_0_r. simpl (Z.to_nat 0).
  rewrite drop_0.
  destruct (Z.min_spec (Z.of_nat n) (Z.of_nat (length s))) as [[Hlt ->]|[Hge ->]].
  - rewrite Z.max_l by lia. now rewrite Nat2Z.id.
  - rewrite Z.max_l by lia. rewrite Nat2Z.id.
    rewrite take_ge by lia. rewrite take_ge by lia. reflexivity.
Qed.

(** ** The scenarios table *)

Module DocsProps.

Import Docs.

Lemma truthy_opt_flag (entity : option Behavior) (flag : Behavior -> option bool) :
  truthy (opt_flag entity flag) = true <-> flagTrue entity flag.
Proof.
  unfold flagTrue, flagValue, opt_flag.
  destruct entity as [b|]; simpl; [|split; discriminate].
  destruct (flag b) as [[|]|]; simpl; split; congruence.
Qed.

Lemma not_truthy_opt_flag (entity : option Behavior) (flag : Behavior -> option bool) :
  truthy (opt_flag entity flag) = false <-> ~ flagTrue entity flag.
Proof.
  rewrite <- truthy_opt_flag. destruct (truthy _); split; congruence.
Qed.

Lemma filter_cases (v : jsval) :
  (filter v = mark_filter <-> truthy v = true) /\
  (filter v = [] <-> truthy v = false).
Proof. unfold filter, mark_filter. destruct (truthy v); repeat split; congruence. Qed.

Lemma alert_cases (v : jsval) :
  (alert v = mark_alert <-> truthy v = true) /\
  (alert v = [] <-> truthy v = false).
Proof. unfold alert, mark_alert. destruct (truthy v); repeat split; congruence. Qed.

Lemma blur_cases (v n : jsval) :
  (blur v n = mark_blur_noOverride <-> truthy v = true /\ truthy n = true) /\
  (blur v n = mark_blur <-> truthy v = true /\ truthy n = false) /\
  (blur v n = [] <-> truthy v = false).
Proof.
  unfold blur, mark_blur_noOverride, mark_blur.
  destruct (truthy v), (truthy n); repeat split;
    try congruence; intros [? ?]; congruence.
Qed.

Lemma blurCell_eq (e : Entity) (title : jsstring) (s : Scenario) :
  blurCell e (scenarioCells title s)
  = blur (opt_flag (entityOf e (behaviors s)) b_blur)
         (opt_flag (entityOf e (behaviors s)) b_noOverride).
Proof. now destruct e. Qed.

Lemma alertCell_eq (e : Entity) (title : jsstring) (s : Scenario) :
  alertCell e (scenarioCells title s)
  = alert (opt_flag (entityOf e (behaviors s)) b_alert).
Proof. now destruct e. Qed.

(** The markers of the cells computed for a scenario. *)
Lemma cell_markers (title : jsstring) (scenario : Scenario) (e : Entity) :
  let c := scenarioCells title scenario in
  let bs := behaviors scenario in
  (cell_filter c = mark_filter <-> flagTrue (account bs) b_filter) /\
  (cell_filter c = [] <-> ~ flagTrue (account bs) b_filter) /\
  (blurCell e c = mark_blur_noOverride <->
     flagTrue (entityOf e bs) b_blur /\ flagTrue (entityOf e bs) b_noOverride) /\
  (blurCell e c = mark_blur <->
     flagTrue (entityOf e bs) b_blur /\ ~ flagTrue (entityOf e bs) b_noOverride) /\
  (blurCell e c = [] <-> ~ flagTrue (entityOf e bs) b_blur) /\
  (alertCell e c = mark_alert <-> flagTrue (entityOf e bs) b_alert) /\
  (alertCell e c = [] <-> ~ flagTrue (entityOf e bs) b_alert).
Proof.
  intros c bs. subst c bs.
  rewrite blurCell_eq, alertCell_eq.
  rewrite <- !not_truthy_opt_flag, <- !truthy_opt_flag.
  cbn [scenarioCells cell_filter].
  pose proof (filter_cases (opt_flag (account (behaviors scenario)) b_filter))
    as [Hf1 Hf2].
  pose proof (blur_cases (opt_flag (entityOf e (behaviors scenario)) b_blur)
                (opt_flag (entityOf e (behaviors scenario)) b_noOverride))
    as [Hb1 [Hb2 Hb3]].
  pose proof (alert_cases (opt_flag (entityOf e (behaviors scenario)) b_alert))
    as [Ha1 Ha2].
  exact (conj Hf1 (conj Hf2 (conj Hb1 (conj Hb2 (conj Hb3 (conj Ha1 Ha2)))))).
Qed.

(** C2: the row rendered for a scenario is the row template, passed through
    [stripIndents], with the title in the first column, one marker in the
    Filter column and a blur marker followed by an alert marker in each of
    the Account, Profile and Avatar columns. The Filter marker is the filter
    sign iff [behaviors.account.filter] is true and is empty otherwise; the
    blur marker of an entity is the no-override sign iff its [blur] and
    [noOverride] are both true, the plain blur sign iff [blur] is true and
    [noOverride] is not, and empty iff [blur] is not true; the alert marker
    of an entity is the alert sign iff its [alert] is true and is empty
    otherwise. *)
Theorem C2_row_markers (stripIndents : jsstring -> jsstring)
    (title : jsstring) (scenario : Scenario) :
  let bs := behaviors scenario in
  let marked (blurMark alertMark : jsstring) (entity : option Behavior) :=
    (blurMark = [0xD83D%N; 0xDEAB%N] <->
       flagTrue entity b_blur /\ flagTrue entity b_noOverride) /\
    (blurMark = [0x270B%N] <->
       flagTrue entity b_blur /\ ~ flagTrue entity b_noOverride) /\
    (blurMark = [] <-> ~ flagTrue entity b_blur) /\
    (alertMark = [0xD83E%N; 0xDEA7%N] <-> flagTrue entity b_alert) /\
    (alertMark = [] <-> ~ flagTrue entity b_alert) in
  exists filterMark accountBlur accountAlert profileBlur profileAlert
         avatarBlur avatarAlert : jsstring,
    scenarioSection stripIndents title scenario
    = stripIndents
        (js "
  <tr>
    <td><strong>" ++ title ++ js "</strong></td>
    <td>
      " ++ filterMark ++ js "
    </td>
    <td>
      " ++ accountBlur ++ js "
      " ++ accountAlert ++ js "
    </td>
    <td>
      " ++ profileBlur ++ js "
      " ++ profileAlert ++ js "
    </td>
    <td>
      " ++ avatarBlur ++ js "
      " ++ avatarAlert ++ js "
    </td>
  </tr>
  ") /\
    (filterMark = [0x274C%N] <-> flagTrue (account bs) b_filter) /\
    (filterMark = [] <-> ~ flagTrue (account bs) b_filter) /\
    marked accountBlur accountAlert (account bs) /\
    marked profileBlur profileAlert (profile bs) /\
    marked avatarBlur avatarAlert (avatar bs).
Proof.
  intros bs marked. subst bs marked.
  pose proof (cell_markers title scenario OnAccount)
    as [Hf1 [Hf2 [Ha1 [Ha2 [Ha3 [Ha4 Ha5]]]]]].
  pose proof (cell_markers title scenario OnProfile)
    as [_ [_ [Hp1 [Hp2 [Hp3 [Hp4 Hp5]]]]]].
  pose proof (cell_markers title scenario OnAvatar)
    as [_ [_ [Hv1 [Hv2 [Hv3 [Hv4 Hv5]]]]]].
  cbn [blurCell alertCell entityOf] in *.
  exists (cell_filter (scenarioCells title scenario)),
    (cell_account_blur (scenarioCells title scenario)),
    (cell_account_alert (scenarioCells title scenario)),
    (cell_profile_blur (scenarioCells title scenario)),
    (cell_profile_alert (scenarioCells title scenario)),
    (cell_avatar_blur (scenarioCells title scenario)),
    (cell_avatar_alert (scenarioCells title scenario)).
  split; [reflexivity|].
  split; [exact Hf1|]. split; [exact Hf2|].
  split; [exact (conj Ha1 (conj Ha2 (conj Ha3 (conj Ha4 Ha5))))|].
  split; [exact (conj Hp1 (conj Hp2 (conj Hp3 (conj Hp4 Hp5))))|].
  exact (conj Hv1 (conj Hv2 (conj Hv3 (conj Hv4 Hv5)))).
Qed.

(** C3: when [blur] is falsy the blur marker is empty whatever [noOverride]
    is: two calls of [blur] that differ in [noOverride] only return the same
    empty string, and so do the blur cells of two scenarios in which the
    entity's [blur] is not true. *)
Theorem C3_noOverride_needs_blur :
  (forall val n1 n2 : jsval,
     truthy val = false -> blur val n1 = [] /\ blur val n1 = blur val n2) /\
  (forall (e : Entity) (t1 t2 : jsstring) (s1 s2 : Scenario),
     ~ flagTrue (entityOf e (behaviors s1)) b_blur ->
     ~ flagTrue (entityOf e (behaviors s2)) b_blur ->
     blurCell e (scenarioCells t1 s1) = [] /\
     blurCell e (scenarioCells t1 s1) = blurCell e (scenarioCells t2 s2)).
Proof.
  split.
  - intros val n1 n2 H. unfold blur. now rewrite H.
  - intros e t1 t2 s1 s2 H1 H2. rewrite !blurCell_eq.
    apply not_truthy_opt_flag in H1, H2. unfold blur. now rewrite H1, H2.
Qed.

Lemma C3_noOverride_needs_blur_witness :
  (blur (JBool false) (JBool true) = [] /\
   blur (JBool false) (JBool true) = blur (JBool false) JUndefined) /\
  (blurCell OnAccount (scenarioCells (js "a") (s_blur_off (Some true))) = [] /\
   blurCell OnAccount (scenarioCells (js "a") (s_blur_off (Some true)))
   = blurCell OnAccount (scenarioCells (js "a") (s_blur_off None))).
Proof.
  split.
  - apply (proj1 C3_noOverride_needs_blur); reflexivity.
  - apply (proj2 C3_noOverride_needs_blur); unfold flagTrue; simpl; discriminate.
Defined.

(** C4: the Filter cell is a function of [behaviors.account.filter] alone,
    and the alert marker of an entity is a function of that entity's [alert]
    alone: scenarios that agree on the flag render the same cell, whatever
    their other flags are. *)
Theorem C4_filter_alert_independent :
  (forall (t1 t2 : jsstring) (s1 s2 : Scenario),
     flagValue (account (behaviors s1)) b_filter
     = flagValue (account (behaviors s2)) b_filter ->
     cell_filter (scenarioCells t1 s1) = cell_filter (scenarioCells t2 s2)) /\
  (forall (e : Entity) (t1 t2 : jsstring) (s1 s2 : Scenario),
     flagValue (entityOf e (behaviors s1)) b_alert
     = flagValue (entityOf e (behaviors s2)) b_alert ->
     alertCell e (scenarioCells t1 s1) = alertCell e (scenarioCells t2 s2)).
Proof.
  assert (forall ent1 ent2 flag1 flag2,
            flagValue ent1 flag1 = flagValue ent2 flag2 ->
            opt_flag ent1 flag1 = opt_flag ent2 flag2) as Hv.
  { intros [b1|] [b2|] flag1 flag2; unfold flagValue, opt_flag; intros H;
      try rewrite H; try rewrite <- H; reflexivity. }
  split.
  - intros t1 t2 s1 s2 H. cbn [scenarioCells cell_filter].
    now rewrite (Hv _ _ _ _ H).
  - intros e t1 t2 s1 s2 H. rewrite !alertCell_eq. now rewrite (Hv _ _ _ _ H).
Qed.

Lemma C4_filter_alert_independent_witness :
  cell_filter (scenarioCells (js "a")
                 (s_flags (Some true) (Some true) (Some true) (Some true)))
  = cell_filter (scenarioCells (js "b") (s_flags (Some true) None None None))
  /\
  alertCell OnAccount (scenarioCells (js "a")
                         (s_flags (Some true) (Some true) (Some true) (Some true)))
  = alertCell OnAccount (scenarioCells (js "b")
                           (s_flags None None None (Some true))).
Proof.
  split.
  - apply (proj1 C4_filter_alert_independent); reflexivity.
  - apply (proj2 C4_filter_alert_independent); reflexivity.
Defined.

Lemma postTableHead_nonempty : postTableHead <> [].
Proof. discriminate. Qed.

Lemma head_cases (title lastTitle : jsstring) :
  let head := if indexOf title lastTitle =? -1 then postTableHead else [] in
  (head = postTableHead <-> ~ isSubstring lastTitle title) /\
  (head = [] <-> isSubstring lastTitle title).
Proof.
  intros head. subst head.
  rewrite <- indexOf_absent, <- indexOf_present.
  destruct (Z.eqb_spec (indexOf title lastTitle) (-1)) as [Heq|Hne].
  - repeat split; try congruence.
    intros H. now destruct postTableHead_nonempty.
  - repeat split; try congruence.
    intros H. symmetry in H. now destruct postTableHead_nonempty.
Qed.

Section Chunks.

Variable stripIndents : jsstring -> jsstring.

Lemma scenarioChunks_length (lastTitle : jsstring)
    (entries : list (jsstring * Scenario)) :
  length (scenarioChunks stripIndents lastTitle entries) = length entries.
Proof.
  revert lastTitle. induction entries as [|[t s] rest IH]; intros lastTitle.
  - reflexivity.
  - simpl. now rewrite IH.
Qed.

(** The chunk of entry [i] when the traversal starts with [lastTitle]. *)
Lemma scenarioChunks_lookup (entries : list (jsstring * Scenario)) :
  forall (lastTitle : jsstring) (i : nat) (title : jsstring) (sc : Scenario),
    entries !! i = Some (title, sc) ->
    scenarioChunks stripIndents lastTitle entries !! i
    = Some {| chunk_head :=
                if indexOf title
                     (match i with
                      | O => lastTitle
                      | S _ => lastTitleAt entries i
                      end) =? -1
                then postTableHead else [];
              chunk_section := scenarioSection stripIndents title sc |}.
Proof.
  induction entries as [|[t0 s0] rest IH]; intros lastTitle i title sc Hi.
  - destruct i; discriminate.
  - destruct i as [|j].
    + simpl in Hi. injection Hi as -> ->. reflexivity.
    + simpl in Hi. cbn [scenarioChunks]. cbn [lookup list_lookup].
      change (scenarioChunks stripIndents (slice t0 0 10) rest !! j) with
        (scenarioChunks stripIndents (slice t0 0 (Z.of_nat 10)) rest !! j).
      rewrite slice_prefix.
      rewrite (IH (take 10 t0) j title sc Hi).
      destruct j as [|j']; reflexivity.
Qed.

End Chunks.

(** The table is the header of the document, the text emitted for each
    entry - the header row or nothing, then the scenario row, each on a
    line of its own - joined by blank lines, and the footer. *)
Lemma profiles_emits (stripIndents : jsstring -> jsstring)
    (entries : list (jsstring * Scenario)) :
  profiles stripIndents entries
  = stripIndents
      (docHeader
       ++ join (js "

")
            (map (fun chunk =>
                    js "
          " ++ chunk_head chunk ++ js "
          " ++ chunk_section chunk ++ js "
        ")
               (scenarioChunks stripIndents (js "NULL") entries))
       ++ docFooter).
Proof. reflexivity. Qed.

(** C10: the generated table is the document header, one piece of text per
    entry, joined by blank lines, and the footer. The piece of entry [i]
    is a header line followed immediately by the line of the scenario row;
    the header line holds the header row (Scenario, Filter, Account,
    Profile, Avatar) exactly when the title does not contain, as a
    substring, the first ten code units of the previous title, and is
    empty exactly when it does; for the first entry the previous title is
    [NULL]. *)
Theorem C10_header_rows (stripIndents : jsstring -> jsstring)
    (entries : list (jsstring * Scenario)) (i : nat)
    (title : jsstring) (sc : Scenario) :
  entries !! i = Some (title, sc) ->
  exists pieces : list jsstring,
    profiles stripIndents entries
    = stripIndents (docHeader ++ join (js "

") pieces ++ docFooter) /\
    length pieces = length entries /\
    exists head : jsstring,
      pieces !! i
      = Some (js "
          " ++ head ++ js "
          " ++ scenarioSection stripIndents title sc ++ js "
        ") /\
      (head
       = js "<tr><th>Scenario</th><th>Filter</th><th>Account</th><th>Profile</td><th>Avatar</th></tr>"
       <-> ~ isSubstring (lastTitleAt entries i) title) /\
      (head = [] <-> isSubstring (lastTitleAt entries i) title).
Proof.
  intros Hi. eexists. split; [apply profiles_emits|].
  split; [now rewrite length_map, scenarioChunks_length|].
  eexists. rewrite list_lookup_fmap.
  rewrite (scenarioChunks_lookup _ _ _ _ _ _ Hi). cbn [fmap option_fmap option_map chunk_head chunk_section].
  split; [reflexivity|].
  replace (match i with O => js "NULL" | S _ => lastTitleAt entries i end)
    with (lastTitleAt entries i) by (now destruct i).
  apply head_cases.
Qed.

Lemma C10_header_rows_witness :
  exists pieces : list jsstring,
    profiles (fun s => s) sampleEntries
    = docHeader ++ join (js "

") pieces ++ docFooter /\
    length pieces = length sampleEntries /\
    exists head : jsstring,
      pieces !! 1%nat
      = Some (js "
          " ++ head ++ js "
          "
              ++ scenarioSection (fun s => s)
                   (js "Imperative label ('!hide') on profile")
                   (s_flags None (Some true) (Some true) None) ++ js "
        ") /\
      (head
       = js "<tr><th>Scenario</th><th>Filter</th><th>Account</th><th>Profile</td><th>Avatar</th></tr>"
       <-> ~ isSubstring (lastTitleAt sampleEntries 1)
               (js "Imperative label ('!hide') on profile")) /\
      (head = [] <->
         isSubstring (lastTitleAt sampleEntries 1)
           (js "Imperative label ('!hide') on profile")).
Proof.
  apply (C10_header_rows (fun s => s) sampleEntries 1). reflexivity.
Defined.

End DocsProps.

(** ** [ServerConfig] *)

Module ConfigProps.

Import Config.

Lemma find_none_allValid (domains : list jsstring) :
  List.find isInvalid domains = None <-> allValid domains.
Proof.
  unfold allValid, isInvalid. split.
  - intros H d Hd. pose proof (find_none _ _ H d Hd) as Hn. simpl in Hn.
    apply orb_false_iff in Hn as [Hlen Hdot].
    apply negb_false_iff in Hdot. split; [|exact Hdot].
    intros ->. discriminate.
  - intros H. destruct (List.find _ domains) as [d|] eqn:Hf; [|reflexivity].
    apply find_some in Hf as [Hd Hinv]. destruct (H d Hd) as [Hne Hdot].
    rewrite Hdot in Hinv. simpl in Hinv. rewrite orb_false_r in Hinv.
    apply Z.ltb_lt in Hinv. destruct d; [congruence|simpl length in Hinv; lia].
Qed.

(** The constructor throws exactly when the first invalid entry is a
    non-empty string. *)
Lemma new_ServerConfig_throws (c : ServerConfigValues) :
  (exists e, new_ServerConfig c = inl e) <->
  (exists d, List.find isInvalid (availableUserDomains c) = Some d /\ d <> []).
Proof.
  unfold new_ServerConfig, Array_find.
  destruct (List.find isInvalid (availableUserDomains c)) as [d|]; simpl.
  - destruct d as [|x d]; simpl.
    + split; [intros [e H]; discriminate | intros [d [H Hne]]; congruence].
    + split; [intros _; eexists; split; [reflexivity|discriminate]
             | intros _; eexists; reflexivity].
  - split; [intros [e H]; discriminate | intros [d [H _]]; discriminate].
Qed.

Lemma new_ServerConfig_valid (c : ServerConfigValues) :
  allValid (availableUserDomains c) -> new_ServerConfig c = inr {| cfg := c |}.
Proof.
  intros H. apply find_none_allValid in H.
  unfold new_ServerConfig, Array_find. now rewrite H.
Qed.

(** C8: the constructor does not throw for every list with an empty or
    dot-less entry. With the single entry [''], and with [''] followed by
    the dot-less ['example'], [find] returns the empty string, which the
    test [if (invalidDomain)] takes for "nothing found", so construction
    succeeds; the rule "throws iff some entry is invalid" fails there. *)
Theorem C8_empty_domain_accepted :
  new_ServerConfig {| availableUserDomains := [js ""] |}
  = inr {| cfg := {| availableUserDomains := [js ""] |} |} /\
  new_ServerConfig {| availableUserDomains := [js ""; js "example"] |}
  = inr {| cfg := {| availableUserDomains := [js ""; js "example"] |} |} /\
  ~ throwsIffInvalid {| availableUserDomains := [js ""] |}.
Proof.
  split; [reflexivity|]. split; [reflexivity|].
  unfold throwsIffInvalid. intros [_ H].
  destruct H as [e He]; [|discriminate].
  intros Hall. destruct (Hall (js "")) as [Hne _]; [now left|].
  now apply Hne.
Qed.

End ConfigProps.

(** ** The seed client *)

Module SeedProps.

Import Seed.

Section Wrappers.

Variables (ActionInput SubjectInput Data Service : Type).
Variable agent :
  Request ActionInput SubjectInput -> Service -> (JsError + Data) * Service.

Lemma requireAdminAuth_falsy (c : SeedClient) (w : World ActionInput SubjectInput Service) :
  adminAuth c = None \/ adminAuth c = Some [] ->
  requireAdminAuth c w = (inl noAdminAuth, w).
Proof.
  unfold requireAdminAuth, adminAuth_val. intros [-> | ->]; reflexivity.
Qed.

Lemma requireAdminAuth_truthy (c : SeedClient) (auth : jsstring) (w : World ActionInput SubjectInput Service) :
  adminAuth c = Some auth -> auth <> [] ->
  requireAdminAuth c w = (inr auth, w).
Proof.
  unfold requireAdminAuth, adminAuth_val. intros -> Hne.
  destruct auth; [congruence | reflexivity].
Qed.

Lemma bind_call_ret (req : Request ActionInput SubjectInput) (w : World ActionInput SubjectInput Service) :
  bind (call agent req) (fun result => ret result) w = call agent req w.
Proof.
  unfold bind, ret.
  destruct (call agent req w) as [[e|d] w']; reflexivity.
Qed.

Lemma call_sent (req : Request ActionInput SubjectInput) (w : World ActionInput SubjectInput Service) :
  sent (snd (call agent req w)) = sent w ++ [req].
Proof. unfold call. now destruct (agent req (service w)). Qed.

End Wrappers.

(** C9 (amended): each of [takeModerationAction], [reverseModerationAction]
    and [resolveReports] throws 'No admin auth provided to seed client'
    when [adminAuth] is unset or the empty string, leaving the world as it
    was, so that no request has been issued; when [adminAuth] is a
    non-empty string the wrapper issues exactly one request, carrying that
    string as the [authorization] header, in which [reason] is ['X'] and
    [createdBy] is ['did:example:admin'] when omitted, and returns what the
    agent answers. *)
Theorem C9_admin_wrappers
    (ActionInput SubjectInput Data Service : Type)
    (agent : Request ActionInput SubjectInput -> Service
             -> (JsError + Data) * Service)
    (c : SeedClient) (topts : TakeOpts ActionInput SubjectInput)
    (ropts : ReverseOpts) (sopts : ResolveOpts)
    (w : World ActionInput SubjectInput Service) :
  (adminAuth c = None \/ adminAuth c = Some [] ->
     takeModerationAction agent c topts w = (inl noAdminAuth, w) /\
     reverseModerationAction agent c ropts w = (inl noAdminAuth, w) /\
     resolveReports agent c sopts w = (inl noAdminAuth, w)) /\
  (forall auth, adminAuth c = Some auth -> auth <> [] ->
     let treq :=
       TakeModerationAction (take_action topts) (take_subject topts)
         (match take_createdBy topts with
          | None => js "did:example:admin" | Some by_ => by_ end)
         (match take_reason topts with
          | None => js "X" | Some r => r end)
         {| encoding := js "application/json";
            headers := {| authorization := auth |} |} in
     let rreq :=
       ReverseModerationAction ActionInput SubjectInput (reverse_id ropts)
         (match reverse_reason ropts with
          | None => js "X" | Some r => r end)
         (match reverse_createdBy ropts with
          | None => js "did:example:admin" | Some by_ => by_ end)
         {| encoding := js "application/json";
            headers := {| authorization := auth |} |} in
     let sreq :=
       ResolveModerationReports ActionInput SubjectInput
         (resolve_actionId sopts)
         (match resolve_createdBy sopts with
          | None => js "did:example:admin" | Some by_ => by_ end)
         (resolve_reportIds sopts)
         {| encoding := js "application/json";
            headers := {| authorization := auth |} |} in
     (takeModerationAction agent c topts w = call agent treq w /\
      sent (snd (takeModerationAction agent c topts w)) = sent w ++ [treq]) /\
     (reverseModerationAction agent c ropts w = call agent rreq w /\
      sent (snd (reverseModerationAction agent c ropts w)) = sent w ++ [rreq]) /\
     (resolveReports agent c sopts w = call agent sreq w /\
      sent (snd (resolveReports agent c sopts w)) = sent w ++ [sreq])).
Proof.
  split.
  - intros H.
    unfold takeModerationAction, reverseModerationAction, resolveReports, bind.
    rewrite (requireAdminAuth_falsy _ _ _ c w H). auto.
  - intros auth Hauth Hne treq rreq sreq.
    assert (takeModerationAction agent c topts w = call agent treq w) as Ht.
    { unfold takeModerationAction. unfold bind at 1.
      rewrite (requireAdminAuth_truthy _ _ _ c auth w Hauth Hne).
      apply bind_call_ret. }
    assert (reverseModerationAction agent c ropts w = call agent rreq w) as Hr.
    { unfold reverseModerationAction. unfold bind at 1.
      rewrite (requireAdminAuth_truthy _ _ _ c auth w Hauth Hne).
      apply bind_call_ret. }
    assert (resolveReports agent c sopts w = call agent sreq w) as Hs.
    { unfold resolveReports. unfold bind at 1.
      rewrite (requireAdminAuth_truthy _ _ _ c auth w Hauth Hne).
      apply bind_call_ret. }
    rewrite Ht, Hr, Hs, !call_sent. auto.
Qed.

Lemma C9_admin_wrappers_witness :
  (takeModerationAction okAgent {| adminAuth := None |} sampleTake freshWorld
   = (inl noAdminAuth, freshWorld)) /\
  (sent (snd (takeModerationAction okAgent
                {| adminAuth := Some (js "Basic YWRtaW4=") |}
                sampleTake freshWorld))
   = [TakeModerationAction tt tt (js "did:example:admin") (js "X")
        {| encoding := js "application/json";
           headers := {| authorization := js "Basic YWRtaW4=" |} |}]).
Proof.
  split.
  - apply (proj1 (C9_admin_wrappers unit unit unit unit okAgent
                    {| adminAuth := None |} sampleTake sampleReverse
                    sampleResolve freshWorld)).
    left. reflexivity.
  - apply (proj2 (C9_admin_wrappers unit unit unit unit okAgent
                    {| adminAuth := Some (js "Basic YWRtaW4=") |} sampleTake
                    sampleReverse sampleResolve freshWorld)
             (js "Basic YWRtaW4=")).
    + reflexivity.
    + discriminate.
Defined.

(** C9 as stated fails when [adminAuth] is set to the empty string: the
    wrapper throws instead of sending the request. *)
Lemma C9_empty_auth_counterexample :
  ~ guardBySetness okAgent {| adminAuth := Some [] |} sampleTake freshWorld.
Proof. unfold guardBySetness. simpl. vm_compute. discriminate. Qed.

End SeedProps.

(** ** The ledger *)

Module LedgerProps.

Import Ledger.

(** *** Tables searched by key *)

Section Keyed.

Context {A : Type} (key : A -> Z).

Lemma find_key_some (id : Z) (xs : list A) (a : A) :
  List.find (fun x => key x =? id) xs = Some a -> In a xs /\ key a = id.
Proof.
  intros H. apply find_some in H as [Hin Hk].
  split; [exact Hin | now apply Z.eqb_eq].
Qed.

Lemma find_key_none (id : Z) (xs : list A) :
  List.find (fun x => key x =? id) xs = None <->
  ~ exists a, In a xs /\ key a = id.
Proof.
  split.
  - intros H [a [Hin Hk]]. pose proof (find_none _ _ H a Hin) as Hn.
    simpl in Hn. apply Z.eqb_neq in Hn. contradiction.
  - intros H. destruct (List.find _ xs) as [a|] eqn:Hf; [|reflexivity].
    destruct H. exists a. now apply find_key_some.
Qed.

(** Appending rows does not change the row found for a known key. *)
Lemma find_key_app (id : Z) (xs ys : list A) (a : A) :
  List.find (fun x => key x =? id) xs = Some a ->
  List.find (fun x => key x =? id) (xs ++ ys) = Some a.
Proof.
  induction xs as [|x xs IH]; simpl; [discriminate|].
  destruct (key x =? id); [trivial | exact IH].
Qed.

(** A write that keeps the keys rewrites the row found. *)
Lemma find_key_map (f : A -> A) (id : Z) (xs : list A) :
  (forall x, key (f x) = key x) ->
  List.find (fun x => key x =? id) (map f xs)
  = option_map f (List.find (fun x => key x =? id) xs).
Proof.
  intros Hf. induction xs as [|x xs IH]; simpl; [reflexivity|].
  rewrite Hf. destruct (key x =? id); [reflexivity | exact IH].
Qed.

End Keyed.

(** *** The operations, step by step *)

Lemma getAction_eq (id : Z) (l : Ledger) :
  getAction id l
  = (match lookupAction id l with
     | Some a => inr a
     | None => inl NotFound
     end, l).
Proof.
  unfold getAction, bind, get. now destruct (lookupAction id l).
Qed.

Lemma getReport_eq (id : Z) (l : Ledger) :
  getReport id l
  = (match lookupReport id l with
     | Some r => inr r
     | None => inl NotFound
     end, l).
Proof.
  unfold getReport, bind, get. now destruct (lookupReport id l).
Qed.

Lemma mapSE_getReport (ids : list Z) (l : Ledger) :
  mapSE getReport ids l
  = (match lookupReports ids l with
     | Some rs => inr rs
     | None => inl NotFound
     end, l).
Proof.
  induction ids as [|id ids IH]; [reflexivity|].
  cbn [mapSE lookupReports]. unfold bind at 1. rewrite getReport_eq.
  destruct (lookupReport id l) as [r|]; [|reflexivity].
  unfold bind. rewrite IH. now destruct (lookupReports ids l).
Qed.

Lemma lookupAction_known (id : Z) (l : Ledger) :
  (forall a, lookupAction id l = Some a -> In a (actions l) /\ action_id a = id)
  /\ (lookupAction id l = None <-> ~ knownAction id l).
Proof.
  split.
  - intros a. apply find_key_some.
  - apply find_key_none.
Qed.

Lemma lookupReport_known (id : Z) (l : Ledger) :
  (forall r, lookupReport id l = Some r -> In r (reports l) /\ report_id r = id)
  /\ (lookupReport id l = None <-> ~ knownReport id l).
Proof.
  split.
  - intros r. apply (find_key_some report_id).
  - apply (find_key_none report_id).
Qed.

Lemma reverseAction_eq (id : Z) (by_ reason : jsstring) (now : Z) (l : Ledger) :
  reverseAction id by_ reason now l
  = match lookupAction id l with
    | None => (inl NotFound, l)
    | Some a =>
        match status a with
        | Reversed => (inl AlreadyReversed, l)
        | Active => (inr (setReversal by_ reason now a),
                     updateActions (reverseWrite id by_ reason now) l)
        end
    end.
Proof.
  unfold reverseAction. unfold bind at 1. rewrite getAction_eq.
  destruct (lookupAction id l) as [a|]; [|reflexivity].
  now destruct (status a).
Qed.

Lemma lookupReports_update (f : ModerationReport -> ModerationReport)
    (ids : list Z) (l : Ledger) :
  (forall r, report_id (f r) = report_id r) ->
  lookupReports ids (updateReports f l)
  = option_map (map f) (lookupReports ids l).
Proof.
  intros Hf. induction ids as [|i ids IH]; [reflexivity|].
  cbn [lookupReports]. rewrite IH. unfold lookupReport.
  cbn [updateReports reports]. rewrite (find_key_map report_id) by exact Hf.
  destruct (List.find _ (reports l)); [|reflexivity].
  now destruct (lookupReports ids l).
Qed.

Lemma resolveWrite_id (actionId : Z) (ids : list Z) (r : ModerationReport) :
  report_id (resolveWrite actionId ids r) = report_id r.
Proof. unfold resolveWrite. now destruct (_ && _). Qed.

Lemma resolveReports_eq (actionId : Z) (ids : list Z) (by_ : jsstring)
    (l : Ledger) :
  resolveReports actionId ids by_ l
  = match lookupAction actionId l with
    | None => (inl NotFound, l)
    | Some _ =>
        match lookupReports ids l with
        | None => (inl NotFound, l)
        | Some rs =>
            if existsb (fun r => negb (isOpen r)) rs
            then (inl AlreadyResolved, l)
            else (inr (map (resolveWrite actionId ids) rs),
                  updateReports (resolveWrite actionId ids) l)
        end
    end.
Proof.
  unfold resolveReports. unfold bind at 1. rewrite getAction_eq.
  destruct (lookupAction actionId l) as [a|]; [|reflexivity].
  unfold bind at 1. rewrite mapSE_getReport.
  destruct (lookupReports ids l) as [rs|] eqn:Hrs; [|reflexivity].
  destruct (existsb _ rs); [reflexivity|].
  unfold bind, get, put. rewrite mapSE_getReport.
  rewrite lookupReports_update by apply resolveWrite_id.
  now rewrite Hrs.
Qed.

Lemma takeAction_actions (k : ActionKind) (s : Subject) (r c : jsstring)
    (now : Z) (l : Ledger) :
  exists extra,
    actions (snd (takeAction k s r c now l)) = actions l ++ extra /\
    reports (snd (takeAction k s r c now l)) = reports l.
Proof.
  unfold takeAction. destruct (wellFormed s); simpl.
  - eexists. split; reflexivity.
  - exists []. now rewrite app_nil_r.
Qed.

Lemma createReport_tables (t : jsstring) (s : Subject) (r by_ : jsstring)
    (now : Z) (l : Ledger) :
  exists extra,
    reports (snd (createReport t s r by_ now l)) = reports l ++ extra /\
    actions (snd (createReport t s r by_ now l)) = actions l.
Proof.
  unfold createReport. destruct (wellFormed s); simpl.
  - eexists. split; reflexivity.
  - exists []. now rewrite app_nil_r.
Qed.

Lemma reverseWrite_id (id : Z) (by_ reason : jsstring) (now : Z)
    (x : ModerationAction) :
  action_id (reverseWrite id by_ reason now x) = action_id x.
Proof. unfold reverseWrite. now destruct (_ && _). Qed.

Lemma reverseWrite_reversed (id : Z) (by_ reason : jsstring) (now : Z)
    (x : ModerationAction) :
  status x = Reversed -> reverseWrite id by_ reason now x = x.
Proof.
  intros H. unfold reverseWrite, isActive. rewrite H.
  now rewrite andb_false_r.
Qed.

Lemma resolveWrite_resolved (actionId : Z) (ids : list Z)
    (r : ModerationReport) :
  isOpen r = false -> resolveWrite actionId ids r = r.
Proof.
  intros H. unfold resolveWrite. rewrite H. now rewrite andb_false_r.
Qed.

Lemma reverseAction_tables (id : Z) (by_ reason : jsstring) (now : Z)
    (l : Ledger) :
  (snd (reverseAction id by_ reason now l) = l \/
   snd (reverseAction id by_ reason now l)
   = updateActions (reverseWrite id by_ reason now) l).
Proof.
  rewrite reverseAction_eq. destruct (lookupAction id l) as [a|]; [|now left].
  destruct (status a); [now right | now left].
Qed.

Lemma resolveReports_tables (actionId : Z) (ids : list Z) (by_ : jsstring)
    (l : Ledger) :
  (snd (resolveReports actionId ids by_ l) = l \/
   snd (resolveReports actionId ids by_ l)
   = updateReports (resolveWrite actionId ids) l).
Proof.
  rewrite resolveReports_eq. destruct (lookupAction actionId l); [|now left].
  destruct (lookupReports ids l); [|now left].
  destruct (existsb _ _); [now left | now right].
Qed.

(** *** Rows that no operation changes *)

Lemma exec_keeps_reversed (op : Op) (id : Z) (a : ModerationAction)
    (l : Ledger) :
  lookupAction id l = Some a -> status a = Reversed ->
  lookupAction id (exec op l) = Some a.
Proof.
  intros Hl Hs. unfold lookupAction in *. destruct op as [k s r c now|id' by_ r now|t s r by_ now|aid ids c]; cbn [exec].
  - destruct (takeAction_actions k s r c now l) as [extra [-> _]].
    now apply find_key_app.
  - destruct (reverseAction_tables id' by_ r now l) as [-> | ->]; [exact Hl|].
    cbn [updateActions actions].
    rewrite (find_key_map action_id) by apply reverseWrite_id.
    rewrite Hl. simpl. now rewrite reverseWrite_reversed.
  - destruct (createReport_tables t s r by_ now l) as [extra [_ ->]]. exact Hl.
  - destruct (resolveReports_tables aid ids c l) as [-> | ->]; exact Hl.
Qed.

Lemma execs_keeps_reversed (ops : list Op) (id : Z) (a : ModerationAction)
    (l : Ledger) :
  lookupAction id l = Some a -> status a = Reversed ->
  lookupAction id (execs ops l) = Some a.
Proof.
  revert l. induction ops as [|op ops IH]; intros l Hl Hs; [exact Hl|].
  cbn [execs fold_left]. apply IH; [|exact Hs].
  now apply exec_keeps_reversed.
Qed.

Lemma exec_keeps_resolved (op : Op) (id : Z) (r : ModerationReport)
    (l : Ledger) :
  lookupReport id l = Some r -> isOpen r = false ->
  lookupReport id (exec op l) = Some r.
Proof.
  intros Hl Hs. unfold lookupReport in *. destruct op as [k s rs c now|id' by_ rs now|t s rs by_ now|aid ids c]; cbn [exec].
  - destruct (takeAction_actions k s rs c now l) as [extra [_ ->]]. exact Hl.
  - destruct (reverseAction_tables id' by_ rs now l) as [-> | ->]; exact Hl.
  - destruct (createReport_tables t s rs by_ now l) as [extra [-> _]].
    now apply (find_key_app report_id).
  - destruct (resolveReports_tables aid ids c l) as [-> | ->]; [exact Hl|].
    cbn [updateReports reports].
    rewrite (find_key_map report_id) by apply resolveWrite_id.
    rewrite Hl. simpl. now rewrite resolveWrite_resolved.
Qed.

Lemma execs_keeps_resolved (ops : list Op) (id : Z) (r : ModerationReport)
    (l : Ledger) :
  lookupReport id l = Some r -> isOpen r = false ->
  lookupReport id (execs ops l) = Some r.
Proof.
  revert l. induction ops as [|op ops IH]; intros l Hl Hs; [exact Hl|].
  cbn [execs fold_left]. apply IH; [|exact Hs].
  now apply exec_keeps_resolved.
Qed.

(** *** The claims about the ledger *)

Lemma lookupReports_in (ids : list Z) (l : Ledger) (rs : list ModerationReport) :
  lookupReports ids l = Some rs ->
  forall id, In id ids -> exists r, lookupReport id l = Some r /\ In r rs.
Proof.
  revert rs. induction ids as [|i ids IH]; intros rs H id Hin; [destruct Hin|].
  cbn [lookupReports] in H.
  destruct (lookupReport i l) as [r|] eqn:Hr; [|discriminate].
  destruct (lookupReports ids l) as [rs'|]; [|discriminate].
  injection H as <-. destruct Hin as [-> | Hin].
  - exists r. split; [exact Hr | now left].
  - destruct (IH rs' eq_refl id Hin) as [r' [Hr' Hin']].
    exists r'. split; [exact Hr' | now right].
Qed.

Lemma lookupReports_known (ids : list Z) (l : Ledger) :
  (forall id, In id ids -> knownReport id l) ->
  exists rs, lookupReports ids l = Some rs.
Proof.
  induction ids as [|i ids IH]; intros H; [now exists []|].
  cbn [lookupReports].
  destruct (lookupReport i l) as [r|] eqn:Hr.
  - destruct IH as [rs ->]; [intros id Hid; apply H; now right|].
    now eexists.
  - apply lookupReport_known in Hr. destruct Hr. apply H. now left.
Qed.

Lemma existsb_closed (rs : list ModerationReport) (r : ModerationReport) :
  In r rs -> isOpen r = false ->
  existsb (fun r => negb (isOpen r)) rs = true.
Proof.
  intros Hin Hc. apply existsb_exists. exists r. split; [exact Hin|].
  now rewrite Hc.
Qed.

Lemma existsb_all_open (rs : list ModerationReport) (r : ModerationReport) :
  existsb (fun r => negb (isOpen r)) rs = false -> In r rs -> isOpen r = true.
Proof.
  intros H Hin. destruct (isOpen r) eqn:Ho; [reflexivity|].
  now rewrite (existsb_closed rs r Hin Ho) in H.
Qed.

Lemma isOpen_resolved (r : ModerationReport) (a : Z) :
  resolvingActionId r = Some a -> isOpen r = false.
Proof. unfold isOpen. now intros ->. Qed.

(** C5: [getAction], and the [getModerationAction] handler on top of it,
    return the action (its detail view) for an id that some row carries and
    fail with [NotFound] for every other id; the ledger is the same after
    the call in both cases. *)
Theorem C5_getAction (ActionView : Type)
    (actionDetail : ModerationAction -> Ledger -> ActionView)
    (id : Z) (l : Ledger) :
  (knownAction id l ->
     exists a,
       In a (actions l) /\ action_id a = id /\
       getAction id l = (inr a, l) /\
       Handler.getModerationAction ActionView actionDetail id l
       = (inr (Handler.mkResponse ActionView (js "application/json")
                 (actionDetail a l)), l)) /\
  (~ knownAction id l ->
     getAction id l = (inl NotFound, l) /\
     Handler.getModerationAction ActionView actionDetail id l
     = (inl NotFound, l)).
Proof.
  unfold Handler.getModerationAction, Handler.getActionOrThrow.
  unfold bind at 1 3. rewrite !getAction_eq.
  destruct (lookupAction_known id l) as [Hsome Hnone].
  destruct (lookupAction id l) as [a|].
  - split.
    + intros _. destruct (Hsome a eq_refl) as [Hin Hid].
      exists a. repeat split; assumption || reflexivity.
    + intros Hn. destruct Hn. destruct (Hsome a eq_refl) as [Hin Hid].
      now exists a.
  - split.
    + intros Hk. now apply Hnone in Hk.
    + intros _. split; reflexivity.
Qed.

Lemma C5_getAction_witness :
  (exists a,
     In a (actions sampleLedger) /\ action_id a = 2 /\
     getAction 2 sampleLedger = (inr a, sampleLedger) /\
     Handler.getModerationAction Status (fun a _ => status a) 2 sampleLedger
     = (inr (Handler.mkResponse Status (js "application/json") (status a)),
        sampleLedger)) /\
  (getAction 7 sampleLedger = (inl NotFound, sampleLedger) /\
   Handler.getModerationAction Status (fun a _ => status a) 7 sampleLedger
   = (inl NotFound, sampleLedger)).
Proof.
  split.
  - apply (proj1 (C5_getAction Status (fun a _ => status a) 2 sampleLedger)).
    eexists. split; [right; left; reflexivity | reflexivity].
  - apply (proj2 (C5_getAction Status (fun a _ => status a) 7 sampleLedger)).
    intros [a [Hin Hid]]. simpl in Hin.
    destruct Hin as [<- | [<- | []]]; discriminate.
Defined.

(** C6: [reverseAction] fails with [NotFound] for an id that no row carries
    and with [AlreadyReversed] for an action that is already Reversed; every
    failure leaves the ledger as it was. For an Active action it succeeds,
    returns the action with the reversal fields set, and the ledger then
    holds that Reversed action under the id. A Reversed action is terminal:
    after any sequence of ledger operations the same row is read back, and
    reversing it again fails with [AlreadyReversed]. *)
Theorem C6_reverseAction (id : Z) (by_ reason : jsstring) (now : Z)
    (l : Ledger) :
  (~ knownAction id l ->
     reverseAction id by_ reason now l = (inl NotFound, l)) /\
  (forall a, lookupAction id l = Some a -> status a = Reversed ->
     reverseAction id by_ reason now l = (inl AlreadyReversed, l)) /\
  (forall e, fst (reverseAction id by_ reason now l) = inl e ->
     snd (reverseAction id by_ reason now l) = l) /\
  (forall a, lookupAction id l = Some a -> status a = Active ->
     let a' := setReversal by_ reason now a in
     let l' := snd (reverseAction id by_ reason now l) in
     fst (reverseAction id by_ reason now l) = inr a' /\
     lookupAction id l' = Some a' /\
     status a' = Reversed /\
     reversedBy a' = Some by_ /\ reversedAt a' = Some now /\
     reversedReason a' = Some reason) /\
  (forall a ops by' reason' now',
     lookupAction id l = Some a -> status a = Reversed ->
     lookupAction id (execs ops l) = Some a /\
     reverseAction id by' reason' now' (execs ops l)
     = (inl AlreadyReversed, execs ops l)).
Proof.
  split; [|split; [|split; [|split]]].
  - intros Hn. apply lookupAction_known in Hn.
    rewrite reverseAction_eq. now rewrite Hn.
  - intros a Ha Hs. rewrite reverseAction_eq. now rewrite Ha, Hs.
  - intros e. rewrite reverseAction_eq.
    destruct (lookupAction id l) as [a|]; [|reflexivity].
    destruct (status a); [discriminate | reflexivity].
  - intros a Ha Hs a' l'. subst a' l'. rewrite reverseAction_eq, Ha, Hs.
    cbn [fst snd]. split; [reflexivity|]. split; [|repeat split].
    unfold lookupAction in *. cbn [updateActions actions].
    rewrite (find_key_map action_id) by apply reverseWrite_id.
    rewrite Ha. cbn [option_map]. f_equal.
    apply find_key_some in Ha as [_ Hid].
    unfold reverseWrite, isActive. rewrite Hs.
    now replace (action_id a =? id) with true by (symmetry; now apply Z.eqb_eq).
  - intros a ops by' reason' now' Ha Hs.
    pose proof (execs_keeps_reversed ops id a l Ha Hs) as Hk.
    split; [exact Hk|]. rewrite reverseAction_eq. now rewrite Hk, Hs.
Qed.

Lemma C6_reverseAction_witness :
  reverseAction 9 admin (js "again") 150 sampleLedger
  = (inl NotFound, sampleLedger) /\
  fst (reverseAction 2 admin (js "again") 150 sampleLedger)
  = inr (setReversal admin (js "again") 150
           (mkAction 2 Flag alice (js "rude") admin 110 None None None)) /\
  reverseAction 1 admin (js "again") 150
    (execs [OpTakeAction Mute alice (js "x") admin 160;
            OpReverseAction 1 admin (js "y") 170] sampleLedger)
  = (inl AlreadyReversed,
     execs [OpTakeAction Mute alice (js "x") admin 160;
            OpReverseAction 1 admin (js "y") 170] sampleLedger).
Proof.
  split; [|split].
  - apply (proj1 (C6_reverseAction 9 admin (js "again") 150 sampleLedger)).
    intros [a [Hin Hid]]. simpl in Hin.
    destruct Hin as [<- | [<- | []]]; discriminate.
  - apply (proj1 (proj2 (proj2 (proj2
             (C6_reverseAction 2 admin (js "again") 150 sampleLedger))))
             (mkAction 2 Flag alice (js "rude") admin 110 None None None));
      reflexivity.
  - apply (proj2 (proj2 (proj2 (proj2
             (C6_reverseAction 1 admin (js "again") 150 sampleLedger))))
             (mkAction 1 Takedown alice (js "spam") admin 100
                (Some admin) (Some 140) (Some (js "appeal"))));
      reflexivity.
Defined.

(** C7: [resolveReports] is all-or-nothing. Every failure leaves the ledger
    as it was. If a listed report already has a [resolvingActionId] the call
    fails and resolves nothing; the error is [AlreadyResolved] whenever the
    action and all listed reports exist (an unknown id is reported as
    [NotFound] first). On success every listed report was open and is now
    linked to the action, and these are the reports returned. A resolved
    report is read back unchanged after any sequence of ledger operations. *)
Theorem C7_resolveReports (actionId : Z) (ids : list Z) (by_ : jsstring)
    (l : Ledger) :
  (forall e, fst (resolveReports actionId ids by_ l) = inl e ->
     snd (resolveReports actionId ids by_ l) = l) /\
  (forall id r a0,
     In id ids -> lookupReport id l = Some r -> resolvingActionId r = Some a0 ->
     exists e,
       resolveReports actionId ids by_ l = (inl e, l) /\
       (e = AlreadyResolved \/ e = NotFound) /\
       (knownAction actionId l -> (forall i, In i ids -> knownReport i l) ->
        e = AlreadyResolved)) /\
  (forall rs, fst (resolveReports actionId ids by_ l) = inr rs ->
     forall id, In id ids ->
       exists r,
         lookupReport id l = Some r /\ resolvingActionId r = None /\
         lookupReport id (snd (resolveReports actionId ids by_ l))
         = Some (setResolution actionId r) /\
         In (setResolution actionId r) rs) /\
  (forall id r a0 ops,
     lookupReport id l = Some r -> resolvingActionId r = Some a0 ->
     lookupReport id (execs ops l) = Some r).
Proof.
  split; [|split; [|split]].
  - intros e. rewrite resolveReports_eq.
    destruct (lookupAction actionId l); [|reflexivity].
    destruct (lookupReports ids l); [|reflexivity].
    destruct (existsb _ _); [reflexivity | discriminate].
  - intros id r a0 Hin Hr Ha0. apply isOpen_resolved in Ha0.
    rewrite resolveReports_eq.
    destruct (lookupAction actionId l) as [a|] eqn:Hact.
    + destruct (lookupReports ids l) as [rs|] eqn:Hrs.
      * destruct (lookupReports_in ids l rs Hrs id Hin) as [r' [Hr' Hin']].
        assert (r' = r) as -> by congruence.
        rewrite (existsb_closed rs r Hin' Ha0).
        exists AlreadyResolved. repeat split; auto.
      * exists NotFound. repeat split; auto.
        intros _ Hall. destruct (lookupReports_known ids l Hall) as [rs Hrs'].
        congruence.
    + exists NotFound. repeat split; auto.
      intros Hk. apply lookupAction_known in Hact. contradiction.
  - intros rs. rewrite resolveReports_eq.
    destruct (lookupAction actionId l); [|discriminate].
    destruct (lookupReports ids l) as [rs0|] eqn:Hrs0; [|discriminate].
    destruct (existsb _ rs0) eqn:Hopen; [discriminate|].
    cbn [fst snd]. intros Heq id Hin. injection Heq as <-.
    destruct (lookupReports_in ids l rs0 Hrs0 id Hin) as [r [Hr Hin0]].
    pose proof (existsb_all_open rs0 r Hopen Hin0) as Ho.
    assert (resolveWrite actionId ids r = setResolution actionId r) as Hw.
    { pose proof (find_key_some report_id _ _ _ Hr) as [_ Hid].
      unfold resolveWrite. rewrite Ho.
      replace (listed ids r) with true; [reflexivity|].
      symmetry. apply existsb_exists. exists id.
      split; [exact Hin | now apply Z.eqb_eq]. }
    exists r. split; [exact Hr|].
    split; [unfold isOpen in Ho; now destruct (resolvingActionId r)|].
    split.
    + unfold lookupReport in *. cbn [updateReports reports].
      rewrite (find_key_map report_id) by apply resolveWrite_id.
      rewrite Hr. cbn [option_map]. now rewrite Hw.
    + rewrite <- Hw. now apply in_map.
  - intros id r a0 ops Hr Ha0. apply execs_keeps_resolved; [exact Hr|].
    now apply isOpen_resolved in Ha0.
Qed.

Lemma C7_resolveReports_witness :
  (exists e,
     resolveReports 2 [2; 1] admin sampleLedger = (inl e, sampleLedger) /\
     (e = AlreadyResolved \/ e = NotFound) /\
     (knownAction 2 sampleLedger ->
      (forall i, In i [2; 1] -> knownReport i sampleLedger) ->
      e = AlreadyResolved)) /\
  lookupReport 1
    (execs [OpResolveReports 2 [2; 1] admin; OpResolveReports 2 [2] admin]
       sampleLedger)
  = Some (mkReport 1 (js "spam") alice (js "did:example:bob") (js "r1") 120
            (Some 2)).
Proof.
  split.
  - apply (proj1 (proj2 (C7_resolveReports 2 [2; 1] admin sampleLedger))
             1 (mkReport 1 (js "spam") alice (js "did:example:bob") (js "r1")
                  120 (Some 2)) 2).
    + right. left. reflexivity.
    + reflexivity.
    + reflexivity.
  - apply (proj2 (proj2 (proj2 (C7_resolveReports 2 [2; 1] admin sampleLedger)))
             1 _ 2).
    + reflexivity.
    + reflexivity.
Defined.

End LedgerProps.

(** ** The directive merge *)

Module DirectivesProps.

Import Ledger Directives.

Lemma merge_comm (d1 d2 : DirectiveSet) : merge d1 d2 = merge d2 d1.
Proof.
  unfold merge. f_equal; apply orb_comm.
Qed.

Lemma merge_assoc (d1 d2 d3 : DirectiveSet) :
  merge d1 (merge d2 d3) = merge (merge d1 d2) d3.
Proof.
  unfold merge. cbn [filter blur noOverride alert]. f_equal; apply orb_assoc.
Qed.

Lemma merge_noDirective_l (d : DirectiveSet) : merge noDirective d = d.
Proof. now destruct d. Qed.

Lemma merge_noDirective_r (d : DirectiveSet) : merge d noDirective = d.
Proof. rewrite merge_comm. apply merge_noDirective_l. Qed.

(** Folding from any accumulator gives the same set for permuted lists. *)
Lemma fold_merge_permutation (cs cs' : list DirectiveSet) :
  Permutation cs cs' ->
  forall acc, fold_left merge cs acc = fold_left merge cs' acc.
Proof.
  induction 1 as [|c cs cs' _ IH|c1 c2 cs|cs1 cs2 cs3 _ IH1 _ IH2]; intros acc.
  - reflexivity.
  - cbn [fold_left]. apply IH.
  - cbn [fold_left]. f_equal.
    rewrite <- !merge_assoc. f_equal. apply merge_comm.
  - now rewrite IH1.
Qed.

Lemma filter_active_permutation (acts acts' : list ModerationAction) :
  Permutation acts acts' ->
  Permutation (List.filter isActive acts) (List.filter isActive acts').
Proof.
  induction 1 as [|a l l' _ IH|a1 a2 l|l1 l2 l3 _ IH1 _ IH2].
  - constructor.
  - cbn [List.filter]. destruct (isActive a); [now constructor | exact IH].
  - cbn [List.filter]. destruct (isActive a1), (isActive a2);
      try reflexivity. apply perm_swap.
  - now transitivity (List.filter isActive l2).
Qed.

(** A field of the merged set is the disjunction of that field over the
    contributions and the accumulator. *)
Lemma fold_merge_field (field : DirectiveSet -> bool) (cs : list DirectiveSet) :
  (forall d1 d2, field (merge d1 d2) = field d1 || field d2) ->
  forall acc, field (fold_left merge cs acc) = field acc || existsb field cs.
Proof.
  intros Hf. induction cs as [|c cs IH]; intros acc; cbn [fold_left existsb].
  - now rewrite orb_false_r.
  - rewrite IH, Hf. now rewrite orb_assoc.
Qed.

(** C1: the merge of step 4 is a commutative monoid on directive sets, with
    the all-false set as identity and the field-wise OR of [filter], [blur],
    [noOverride] and [alert] as operation; hence merging permuted lists of
    contributions, or resolving an entity from permuted lists of actions,
    yields the same directive set, in which a field is true exactly when
    some contribution sets it. *)
Theorem C1_merge_order_irrelevant :
  (forall d1 d2, merge d1 d2 = merge d2 d1) /\
  (forall d1 d2 d3, merge d1 (merge d2 d3) = merge (merge d1 d2) d3) /\
  (forall d, merge noDirective d = d /\ merge d noDirective = d) /\
  (forall d1 d2,
     merge d1 d2
     = {| filter := filter d1 || filter d2;
          blur := blur d1 || blur d2;
          noOverride := noOverride d1 || noOverride d2;
          alert := alert d1 || alert d2 |}) /\
  (forall cs,
     mergeAll cs
     = {| filter := existsb filter cs;
          blur := existsb blur cs;
          noOverride := existsb noOverride cs;
          alert := existsb alert cs |}) /\
  (forall cs cs', Permutation cs cs' -> mergeAll cs = mergeAll cs') /\
  (forall policy entity acts acts',
     Permutation acts acts' ->
     resolveEntity policy entity acts = resolveEntity policy entity acts').
Proof.
  split; [exact merge_comm|]. split; [exact merge_assoc|].
  split; [intros d; split; [apply merge_noDirective_l | apply merge_noDirective_r]|].
  split; [reflexivity|].
  split; [|split].
  - intros cs. unfold mergeAll.
    destruct (fold_left merge cs noDirective) as [f b n a] eqn:Hm.
    f_equal.
    + change f with (filter (mkDirectives f b n a)). rewrite <- Hm.
      now rewrite (fold_merge_field filter).
    + change b with (blur (mkDirectives f b n a)). rewrite <- Hm.
      now rewrite (fold_merge_field blur).
    + change n with (noOverride (mkDirectives f b n a)). rewrite <- Hm.
      now rewrite (fold_merge_field noOverride).
    + change a with (alert (mkDirectives f b n a)). rewrite <- Hm.
      now rewrite (fold_merge_field alert).
  - intros cs cs' Hp. unfold mergeAll. now apply fold_merge_permutation.
  - intros policy entity acts acts' Hp. unfold resolveEntity, mergeAll.
    apply fold_merge_permutation. unfold contributions.
    apply Permutation_map. now apply filter_active_permutation.
Qed.

Lemma C1_merge_order_irrelevant_witness :
  resolveEntity samplePolicy EProfile sampleActions
  = resolveEntity samplePolicy EProfile (rev sampleActions) /\
  resolveEntity samplePolicy EProfile sampleActions
  = {| filter := false; blur := true; noOverride := true; alert := false |}.
Proof.
  split; [|reflexivity].
  apply (proj2 (proj2 (proj2 (proj2 (proj2 (proj2
           C1_merge_order_irrelevant)))))).
  apply Permutation_rev.
Defined.

End DirectivesProps.

(** ** The seed client: accounts and records *)

Module SeedRecordsProps.

Import SeedRecords.

(** Unfolds the monad of a wrapper up to the next case distinction. *)
Ltac run :=
  repeat (progress
            (unfold bind, this, throw, ret, update, newDate, getHeaders,
               construct, perform in *;
             cbn [client env calls AVATAR_IMG fst snd] in * )).

(** Splits on the next lookup, answer or parse the wrapper depends on. *)
Ltac branch :=
  match goal with
  | |- context [match ?x with _ => _ end] =>
      lazymatch x with
      | context [match _ with _ => _ end] => fail
      | _ => destruct x eqn:?
      end
  end; cbn [client env calls AVATAR_IMG fst snd] in *.

Section Records.

Context `{Externals}.
Variable respond : forall R, Call R -> Env -> (JsError + R) * Env.

(** X1: a wrapper that acts for an account the client does not hold throws
    a [TypeError] when it builds the headers; no request has been made and
    the client is as before. *)
Theorem X1_unknown_account_sends_nothing (st : St) (by_ : jsstring)
    (other text : jsstring) (u : AtUri) (r1 r2 : RecordRef)
    (ov : option Obj) (facets : option (list Facet))
    (images : option (list ImageRef)) (quote : option RecordRef)
    (rt : ReasonType) (rs : ReportSubject) (reason : option jsstring) :
  accounts (client st) !! by_ = None ->
  updateHandle respond by_ other st = (inl TypeError, st) /\
  follow respond by_ other ov st = (inl TypeError, st) /\
  post respond by_ text facets images quote ov st = (inl TypeError, st) /\
  deletePost respond by_ u st = (inl TypeError, st) /\
  like respond by_ r1 ov st = (inl TypeError, st) /\
  reply respond by_ r1 r2 text facets images st = (inl TypeError, st) /\
  repost respond by_ r1 st = (inl TypeError, st) /\
  createReport respond rt rs reason by_ st = (inl TypeError, st).
Proof.
  intros Hnone.
  unfold updateHandle, follow, post, deletePost, like, reply, repost,
    createReport.
  run. rewrite Hnone. repeat split; reflexivity.
Qed.

(** X2: a wrapper that acts for an account the client holds makes exactly
    one request, whatever the answer, and the request carries
    ['Bearer ' + accessJwt] of that account as its [authorization] header. *)
Theorem X2_requests_carry_bearer (st : St) (by_ : jsstring) (a : Account)
    (other text : jsstring) (u : AtUri) (r1 r2 : RecordRef)
    (ov : option Obj) (facets : option (list Facet))
    (images : option (list ImageRef)) (quote : option RecordRef)
    (rt : ReasonType) (rs : ReportSubject) (reason : option jsstring) :
  accounts (client st) !! by_ = Some a ->
  let h := {| Seed.authorization := js "Bearer " ++ accessJwt a |} in
  let now := isoNow (env st) in
  calls (snd (updateHandle respond by_ other st))
  = calls st ++ [anyCall (UpdateHandle other (jsonOpts h))] /\
  calls (snd (follow respond by_ other ov st))
  = calls st ++
    [anyCall (CreateRecord FollowRecord by_
                (spread [(js "subject", VString other);
                         (js "createdAt", VString now)] ov) h)] /\
  calls (snd (post respond by_ text facets images quote ov st))
  = calls st ++
    [anyCall (CreateRecord PostRecord by_
                (spread [(js "text", VString text);
                         (js "facets", optArray VFacet facets);
                         (js "embed", postEmbed images quote);
                         (js "createdAt", VString now)] ov) h)] /\
  calls (snd (deletePost respond by_ u st))
  = calls st ++ [anyCall (DeleteRecord PostRecord by_ (AtUri_rkey u) h)] /\
  calls (snd (like respond by_ r1 ov st))
  = calls st ++
    [anyCall (CreateRecord LikeRecord by_
                (spread [(js "subject", raw r1);
                         (js "createdAt", VString now)] ov) h)] /\
  calls (snd (reply respond by_ r1 r2 text facets images st))
  = calls st ++
    [anyCall (CreateRecord PostRecord by_
                [(js "text", VString text);
                 (js "reply", VObject [(js "root", raw r1);
                                       (js "parent", raw r2)]);
                 (js "facets", optArray VFacet facets);
                 (js "embed", match images with
                              | Some imgs => imagesEmbed imgs
                              | None => VUndefined
                              end);
                 (js "createdAt", VString now)] h)] /\
  calls (snd (repost respond by_ r1 st))
  = calls st ++
    [anyCall (CreateRecord RepostRecord by_
                [(js "subject", raw r1); (js "createdAt", VString now)] h)] /\
  calls (snd (createReport respond rt rs reason by_ st))
  = calls st ++ [anyCall (CreateReport rt rs reason (jsonOpts h))].
Proof.
  intros Hsome h now. subst h now.
  unfold updateHandle, follow, post, deletePost, like, reply, repost,
    createReport.
  run. rewrite Hsome. run.
  repeat split; repeat branch; reflexivity.
Qed.

Lemma init_absent_eq {V : Type} (k : jsstring) (v : V) (m : gmap jsstring V) :
  init_absent k v m !! k
  = Some (match m !! k with Some x => x | None => v end).
Proof.
  unfold init_absent. destruct (m !! k) eqn:Hk; [exact Hk|].
  apply lookup_insert_eq.
Qed.

Lemma init_absent_ne {V : Type} (k k' : jsstring) (v : V)
    (m : gmap jsstring V) :
  k <> k' -> init_absent k v m !! k' = m !! k'.
Proof.
  intros Hne. unfold init_absent. destruct (m !! k); [reflexivity|].
  now apply lookup_insert_ne.
Qed.

(** The entry written by [m[k] ??= {}; m[k][j] = x]. *)
Lemma nested_write {V : Type} (k j : jsstring) (x : V)
    (m : gmap jsstring (gmap jsstring V)) (k' j' : jsstring) :
  match alter (insert j x) k (init_absent k ∅ m) !! k' with
  | Some inner => inner !! j'
  | None => None
  end
  = if decide (k = k' /\ j = j') then Some x
    else match m !! k' with
         | Some inner => inner !! j'
         | None => None
         end.
Proof.
  destruct (decide (k = k')) as [<-|Hk].
  - rewrite lookup_alter_eq, init_absent_eq. cbn [fmap option_fmap option_map].
    destruct (decide (j = j')) as [<-|Hj].
    + rewrite lookup_insert_eq.
      destruct (decide (k = k /\ j = j)) as [_|Hn]; [reflexivity|].
      now destruct Hn.
    + rewrite lookup_insert_ne by exact Hj.
      destruct (decide (k = k /\ j = j')) as [[_ Hjj]|_]; [contradiction|].
      destruct (m !! k); [reflexivity | apply lookup_empty].
  - rewrite lookup_alter_ne by exact Hk. rewrite init_absent_ne by exact Hk.
    destruct (decide (k = k' /\ j = j')) as [[Hkk _]|_]; [contradiction|].
    reflexivity.
Qed.

(** X3: when the agent accepts the follow and the returned uri and cid
    parse, [follow] returns the new reference and files it under
    [follows[from][to]]; every other entry of [follows] and every other
    table is as before. *)
Theorem X3_follow_recorded (st : St) (from to : jsstring) (ov : option Obj)
    (a : Account) (out : RecordOut) (e' : Env) (ref : RecordRef) :
  accounts (client st) !! from = Some a ->
  respond RecordOut
    (CreateRecord FollowRecord from
       (spread [(js "subject", VString to);
                (js "createdAt", VString (isoNow (env st)))] ov)
       (static_getHeaders (accessJwt a)))
    (env st) = (inr out, e') ->
  new_RecordRef (inr (out_uri out)) (inr (out_cid out)) = inr ref ->
  let c := client st in
  let c' := client (snd (follow respond from to ov st)) in
  fst (follow respond from to ov st) = inr ref /\
  followsAt c' from to = Some ref /\
  (forall f t, ~ (from = f /\ to = t) -> followsAt c' f t = followsAt c f t) /\
  accounts c' = accounts c /\ profiles c' = profiles c /\
  posts c' = posts c /\ likes c' = likes c /\ replies c' = replies c /\
  reposts c' = reposts c /\ dids c' = dids c.
Proof.
  intros Hacc Hres Href c c'. subst c c'.
  unfold follow. run. rewrite Hacc. run. rewrite Hres. run.
  rewrite Href. run.
  split; [reflexivity|]. unfold followsAt. cbn [set_follows follows].
  split; [|split; [|repeat split]].
  - rewrite nested_write. destruct (decide _) as [_|Hn]; [reflexivity|].
    now destruct Hn.
  - intros f t Hne. rewrite nested_write.
    destruct (decide _) as [Hy|_]; [contradiction | reflexivity].
Qed.

Lemma nested_delete {V : Type} (k j : jsstring)
    (m : gmap jsstring (gmap jsstring V)) (k' j' : jsstring) :
  match alter (delete j) k m !! k' with
  | Some inner => inner !! j'
  | None => None
  end
  = if decide (k = k' /\ j = j') then None
    else match m !! k' with
         | Some inner => inner !! j'
         | None => None
         end.
Proof.
  destruct (decide (k = k')) as [<-|Hk].
  - rewrite lookup_alter_eq. destruct (m !! k) as [inner|];
      cbn [fmap option_fmap option_map].
    + destruct (decide (j = j')) as [<-|Hj].
      * rewrite lookup_delete_eq.
        destruct (decide (k = k /\ j = j)) as [_|Hn]; [reflexivity|].
        now destruct Hn.
      * rewrite lookup_delete_ne by exact Hj.
        destruct (decide (k = k /\ j = j')) as [[_ Hjj]|_];
          [contradiction | reflexivity].
    + now destruct (decide _).
  - rewrite lookup_alter_ne by exact Hk.
    destruct (decide (k = k' /\ j = j')) as [[Hkk _]|_];
      [contradiction | reflexivity].
Qed.

(** X4: [unfollow] throws a [TypeError] when [from] has never followed
    anyone and 'follow does not exist' when [from] has no entry for [to],
    in both cases without a request. For a recorded follow it asks the
    agent to delete the record under the reference's key; when the agent
    accepts, that entry alone is removed and a second [unfollow] throws
    'follow does not exist'; when the agent rejects, the client is as
    before. *)
Theorem X4_unfollow (st : St) (from to : jsstring) :
  let c := client st in
  (follows c !! from = None ->
     unfollow respond from to st = (inl TypeError, st)) /\
  (forall inner, follows c !! from = Some inner -> inner !! to = None ->
     unfollow respond from to st = (inl (Raised followDoesNotExist), st)) /\
  (forall ref a, followsAt c from to = Some ref ->
     accounts c !! from = Some a ->
     let req := DeleteRecord FollowRecord from (AtUri_rkey (uri ref))
                  (static_getHeaders (accessJwt a)) in
     let st' := snd (unfollow respond from to st) in
     calls st' = calls st ++ [anyCall req] /\
     (forall x e', respond unit req (env st) = (inr x, e') ->
        fst (unfollow respond from to st) = inr tt /\
        followsAt (client st') from to = None /\
        (forall f t, ~ (from = f /\ to = t) ->
           followsAt (client st') f t = followsAt c f t) /\
        unfollow respond from to st'
        = (inl (Raised followDoesNotExist), st')) /\
     (forall e e', respond unit req (env st) = (inl e, e') ->
        fst (unfollow respond from to st) = inl (Raised e) /\
        client st' = client st)).
Proof.
  intros c. subst c. split; [|split].
  - intros Hn. unfold unfollow. run. now rewrite Hn.
  - intros inner Hi Ht. unfold unfollow. run. now rewrite Hi, Ht.
  - intros ref a Hf Ha req st'. subst req st'.
    unfold followsAt in Hf.
    destruct (follows (client st) !! from) as [inner|] eqn:Hi; [|discriminate].
    unfold unfollow. run. rewrite Hi, Hf. run. rewrite Ha. run.
    destruct (respond () _ (env st)) as [[e|x] e'] eqn:Hr; run.
    + split; [reflexivity|]. split; [intros ? ? [=]|].
      intros e0 e0' [= <- <-]. split; reflexivity.
    + split; [reflexivity|]. split; [|intros ? ? [=]].
      intros x0 e0' _. destruct x.
      assert (forall f t,
                followsAt (set_follows (alter (delete to) from
                                          (follows (client st))) (client st))
                  f t
                = if decide (from = f /\ to = t) then None
                  else followsAt (client st) f t) as Hat.
      { intros f t. unfold followsAt. cbn [set_follows follows].
        apply nested_delete. }
      split; [reflexivity|]. split; [|split].
      * rewrite Hat. destruct (decide _) as [_|Hn]; [reflexivity|].
        now destruct Hn.
      * intros f t Hne. rewrite Hat.
        destruct (decide _) as [Hy|_]; [contradiction | reflexivity].
      * cbn [set_follows follows]. rewrite lookup_alter_eq, Hi.
        cbn [fmap option_fmap option_map]. now rewrite lookup_delete_eq.
Qed.

(** The list read back after [m[k] ??= []; m[k].push(x)]. *)
Lemma pushed {V : Type} (k : jsstring) (x : V) (m : gmap jsstring (list V))
    (k' : jsstring) :
  match alter (fun l => l ++ [x]) k (init_absent k [] m) !! k' with
  | Some l => l
  | None => []
  end
  = if decide (k = k')
    then match m !! k with Some l => l | None => [] end ++ [x]
    else match m !! k' with Some l => l | None => [] end.
Proof.
  destruct (decide (k = k')) as [<-|Hk].
  - rewrite lookup_alter_eq, init_absent_eq. reflexivity.
  - rewrite lookup_alter_ne by exact Hk. now rewrite init_absent_ne.
Qed.

(** X5: when the agent accepts the record and the returned uri and cid
    parse, [post], [reply] and [repost] return the new entry and append it
    to the author's list; the lists of the other authors are as before, so
    the lists keep the order of creation. *)
Theorem X5_lists_appended (st : St) (by_ text : jsstring)
    (facets : option (list Facet)) (images : option (list ImageRef))
    (quote : option RecordRef) (ov : option Obj) (root parent : RecordRef)
    (a : Account) :
  accounts (client st) !! by_ = Some a ->
  let c := client st in
  let h := static_getHeaders (accessJwt a) in
  let now := VString (isoNow (env st)) in
  (forall out e' ref,
     respond RecordOut
       (CreateRecord PostRecord by_
          (spread [(js "text", VString text);
                   (js "facets", optArray VFacet facets);
                   (js "embed", postEmbed images quote);
                   (js "createdAt", now)] ov) h) (env st) = (inr out, e') ->
     new_RecordRef (inr (out_uri out)) (inr (out_cid out)) = inr ref ->
     let p := {| post_text := text; post_ref := ref;
                 post_images := match images with Some l => l | None => [] end;
                 post_quote := quote |} in
     let c' := client (snd (post respond by_ text facets images quote ov st)) in
     fst (post respond by_ text facets images quote ov st) = inr p /\
     postsOf c' by_ = postsOf c by_ ++ [p] /\
     (forall b, b <> by_ -> postsOf c' b = postsOf c b)) /\
  (forall out e' ref,
     respond RecordOut
       (CreateRecord PostRecord by_
          [(js "text", VString text);
           (js "reply", VObject [(js "root", raw root);
                                 (js "parent", raw parent)]);
           (js "facets", optArray VFacet facets);
           (js "embed", match images with
                        | Some imgs => imagesEmbed imgs
                        | None => VUndefined
                        end);
           (js "createdAt", now)] h) (env st) = (inr out, e') ->
     new_RecordRef (inr (out_uri out)) (inr (out_cid out)) = inr ref ->
     let r := {| reply_text := text; reply_ref := ref |} in
     let c' := client (snd (reply respond by_ root parent text facets images
                              st)) in
     fst (reply respond by_ root parent text facets images st) = inr r /\
     repliesOf c' by_ = repliesOf c by_ ++ [r] /\
     (forall b, b <> by_ -> repliesOf c' b = repliesOf c b) /\
     (forall b, postsOf c' b = postsOf c b)) /\
  (forall out e' ref,
     respond RecordOut
       (CreateRecord RepostRecord by_
          [(js "subject", raw root); (js "createdAt", now)] h) (env st)
     = (inr out, e') ->
     new_RecordRef (inr (out_uri out)) (inr (out_cid out)) = inr ref ->
     let c' := client (snd (repost respond by_ root st)) in
     fst (repost respond by_ root st) = inr ref /\
     repostsOf c' by_ = repostsOf c by_ ++ [ref] /\
     (forall b, b <> by_ -> repostsOf c' b = repostsOf c b)).
Proof.
  intros Hacc c h now. subst c h now. split; [|split].
  - intros out e' ref Hres Href p c'. subst p c'.
    unfold post. run. rewrite Hacc. run. rewrite Hres. run.
    rewrite Href. run. split; [reflexivity|].
    unfold postsOf. cbn [set_posts posts]. split.
    + rewrite pushed. destruct (decide _); [reflexivity | contradiction].
    + intros b Hb. rewrite pushed.
      destruct (decide _) as [Heq|_]; [now destruct Hb | reflexivity].
  - intros out e' ref Hres Href r c'. subst r c'.
    unfold reply. run. rewrite Hacc. run. rewrite Hres. run.
    rewrite Href. run. split; [reflexivity|].
    unfold repliesOf, postsOf. cbn [set_replies replies posts].
    split; [|split].
    + rewrite pushed. destruct (decide _); [reflexivity | contradiction].
    + intros b Hb. rewrite pushed.
      destruct (decide _) as [Heq|_]; [now destruct Hb | reflexivity].
    + reflexivity.
  - intros out e' ref Hres Href c'. subst c'.
    unfold repost. run. rewrite Hacc. run. rewrite Hres. run.
    rewrite Href. run. split; [reflexivity|].
    unfold repostsOf. cbn [set_reposts reposts]. split.
    + rewrite pushed. destruct (decide _); [reflexivity | contradiction].
    + intros b Hb. rewrite pushed.
      destruct (decide _) as [Heq|_]; [now destruct Hb | reflexivity].
Qed.

Lemma sameContents_refl (c : SeedClient) : sameContents c c.
Proof. unfold sameContents. repeat split; reflexivity. Qed.

Lemma init_absent_nested {V : Type} (k : jsstring)
    (m : gmap jsstring (gmap jsstring V)) (k' j' : jsstring) :
  match init_absent k ∅ m !! k' with
  | Some inner => inner !! j'
  | None => None
  end
  = match m !! k' with
    | Some inner => inner !! j'
    | None => None
    end.
Proof.
  destruct (decide (k = k')) as [<-|Hk].
  - rewrite init_absent_eq. destruct (m !! k); [reflexivity | apply lookup_empty].
  - now rewrite init_absent_ne.
Qed.

Lemma init_absent_list {V : Type} (k : jsstring) (m : gmap jsstring (list V))
    (k' : jsstring) :
  match init_absent k [] m !! k' with Some l => l | None => [] end
  = match m !! k' with Some l => l | None => [] end.
Proof.
  destruct (decide (k = k')) as [<-|Hk].
  - rewrite init_absent_eq. now destruct (m !! k).
  - now rewrite init_absent_ne.
Qed.

Lemma sameContents_init (c : SeedClient) (k : jsstring) :
  sameContents (set_follows (init_absent k ∅ (follows c)) c) c /\
  sameContents (set_likes (init_absent k ∅ (likes c)) c) c /\
  sameContents (set_posts (init_absent k [] (posts c)) c) c /\
  sameContents (set_replies (init_absent k [] (replies c)) c) c /\
  sameContents (set_reposts (init_absent k [] (reposts c)) c) c.
Proof.
  unfold sameContents, followsAt, likesAt, postsOf, repliesOf, repostsOf.
  cbn [set_follows set_likes set_posts set_replies set_reposts accounts
       profiles follows posts likes replies reposts dids].
  repeat split; intros;
    first [reflexivity | apply init_absent_nested | apply init_absent_list].
Qed.

(** X6: whenever [follow], [like], [post], [reply], [repost],
    [createAccount] or [createProfile] throws - the agent rejects, or a
    returned uri or cid does not parse - the client holds the same
    accounts, profiles, follows, likes, posts, replies and reposts as
    before; at most an empty container has been created. *)
Theorem X6_failure_keeps_contents (st : St) (by_ other text : jsstring)
    (shortName handle_ email_ password_ name_ desc : jsstring)
    (ov : option Obj) (facets : option (list Facet))
    (images : option (list ImageRef)) (quote : option RecordRef)
    (r1 r2 : RecordRef) (fromUser : option jsstring) (e : Exn) :
  (fst (follow respond by_ other ov st) = inl e ->
   sameContents (client (snd (follow respond by_ other ov st))) (client st)) /\
  (fst (like respond by_ r1 ov st) = inl e ->
   sameContents (client (snd (like respond by_ r1 ov st))) (client st)) /\
  (fst (post respond by_ text facets images quote ov st) = inl e ->
   sameContents
     (client (snd (post respond by_ text facets images quote ov st)))
     (client st)) /\
  (fst (reply respond by_ r1 r2 text facets images st) = inl e ->
   sameContents
     (client (snd (reply respond by_ r1 r2 text facets images st)))
     (client st)) /\
  (fst (repost respond by_ r1 st) = inl e ->
   sameContents (client (snd (repost respond by_ r1 st))) (client st)) /\
  (fst (createAccount respond shortName handle_ email_ password_ st) = inl e ->
   client (snd (createAccount respond shortName handle_ email_ password_ st))
   = client st) /\
  (fst (createProfile respond by_ name_ desc fromUser st) = inl e ->
   client (snd (createProfile respond by_ name_ desc fromUser st))
   = client st).
Proof.
  destruct (sameContents_init (client st) by_) as [Hf [Hl [Hp [Hr Ht]]]].
  pose proof (sameContents_refl (client st)) as Hrefl.
  unfold follow, like, post, reply, repost, createAccount, createProfile,
    avatarImage.
  run.
  repeat match goal with |- _ /\ _ => split end;
    repeat branch; run; intros Hfail;
    try discriminate Hfail; try assumption; try reflexivity.
Qed.

(** X7: [createAccount], when the agent accepts, stores the returned
    account with the e-mail and password of the call under its DID, maps
    the short name to the DID, and leaves every other account and name as
    it was; [getHeaders] of the new DID then yields
    ['Bearer ' + accessJwt]. *)
Theorem X7_createAccount_then_headers (st : St)
    (shortName handle_ email_ password_ : jsstring) (out : AccountOut)
    (e' : Env) :
  respond AccountOut (CreateAccount handle_ email_ password_) (env st)
  = (inr out, e') ->
  let stored := {| did := out_did out; accessJwt := out_accessJwt out;
                   refreshJwt := out_refreshJwt out; handle := out_handle out;
                   email := email_; password := password_ |} in
  let st' := snd (createAccount respond shortName handle_ email_ password_ st) in
  fst (createAccount respond shortName handle_ email_ password_ st)
  = inr stored /\
  accounts (client st') !! out_did out = Some stored /\
  dids (client st') !! shortName = Some (out_did out) /\
  (forall d, d <> out_did out ->
     accounts (client st') !! d = accounts (client st) !! d) /\
  (forall n, n <> shortName -> dids (client st') !! n = dids (client st) !! n) /\
  getHeaders (out_did out) st'
  = (inr {| Seed.authorization := js "Bearer " ++ out_accessJwt out |}, st').
Proof.
  intros Hres stored st'. subst stored st'.
  unfold createAccount. run. rewrite Hres. run.
  cbn [set_accounts set_dids accounts dids].
  rewrite !lookup_insert_eq.
  repeat split; try reflexivity.
  - intros d Hd. now rewrite lookup_insert_ne by (intros Heq; now apply Hd).
  - intros n Hn. now rewrite lookup_insert_ne by (intros Heq; now apply Hn).
Qed.

Lemma jsstring_eqb_decide (s t : jsstring) :
  jsstring_eqb s t = if decide (s = t) then true else false.
Proof. unfold jsstring_eqb, bool_decide. now destruct (decide_rel _ s t); destruct (decide (s = t)). Qed.

Lemma get_prop_set_prop (k k' : jsstring) (v : Value) (o : Obj) :
  get_prop k (set_prop k' v o)
  = if jsstring_eqb k' k then v else get_prop k o.
Proof.
  induction o as [|[k0 v0] o IH]; cbn [set_prop get_prop].
  - now destruct (jsstring_eqb k' k).
  - destruct (jsstring_eqb k0 k') eqn:H0; cbn [get_prop].
    + unfold jsstring_eqb in H0. apply bool_decide_eq_true in H0 as ->.
      now destruct (jsstring_eqb k' k).
    + destruct (jsstring_eqb k0 k) eqn:H1; [|exact IH].
      destruct (jsstring_eqb k' k) eqn:H2; [|reflexivity].
      unfold jsstring_eqb in *.
      apply bool_decide_eq_true in H1, H2. subst.
      apply bool_decide_eq_false in H0. contradiction.
Qed.

Lemma overridden_acc (k : jsstring) (ov : Obj) (acc : option Value) :
  fold_left (fun acc kv => if jsstring_eqb (fst kv) k then Some (snd kv) else acc)
    ov acc
  = match overridden k ov with
    | Some v => Some v
    | None => acc
    end.
Proof.
  unfold overridden. revert acc.
  induction ov as [|[k0 v0] ov IH]; intros acc; cbn [fold_left fst snd];
    [reflexivity|].
  rewrite IH. rewrite (IH (if jsstring_eqb k0 k then Some v0 else None)).
  destruct (fold_left _ ov None); [reflexivity|].
  now destruct (jsstring_eqb k0 k).
Qed.

(** A property of a spread object is the last override of it, if there is
    one, and the property of the literal otherwise. *)
Lemma get_prop_spread (k : jsstring) (base : Obj) (ov : option Obj) :
  get_prop k (spread base ov)
  = match ov with
    | Some o => match overridden k o with
                | Some v => v
                | None => get_prop k base
                end
    | None => get_prop k base
    end.
Proof.
  destruct ov as [o|]; [|reflexivity]. cbn [spread]. revert base.
  induction o as [|[k0 v0] o IH]; intros base; [reflexivity|].
  cbn [fold_left fst snd]. rewrite IH, get_prop_set_prop.
  unfold overridden at 2. cbn [fold_left fst snd]. rewrite overridden_acc.
  destruct (overridden k o); [reflexivity|].
  now destruct (jsstring_eqb k0 k).
Qed.

(** X8: in the records that [follow] and [like] send, a property given by
    [overrides] replaces the one the wrapper computes - the last one given
    wins - and a property the wrapper does not set is taken from
    [overrides]; without overrides the record is [subject] and [createdAt]
    alone. The subject sent by [follow] can so differ from the [to] under
    which the follow is filed. *)
Theorem X8_overrides_win (st : St) (by_ to : jsstring) (subject : RecordRef)
    (ov : option Obj) (a : Account) (k : jsstring) :
  accounts (client st) !! by_ = Some a ->
  let pick (own : Value) :=
    match ov with
    | Some o => match overridden k o with Some v => v | None => own end
    | None => own
    end in
  let own (s : Value) :=
    if jsstring_eqb (js "subject") k then s
    else if jsstring_eqb (js "createdAt") k then VString (isoNow (env st))
         else VUndefined in
  (exists record h,
     calls (snd (follow respond by_ to ov st))
     = calls st ++ [anyCall (CreateRecord FollowRecord by_ record h)] /\
     get_prop k record = pick (own (VString to)) /\
     (ov = None -> record = [(js "subject", VString to);
                             (js "createdAt", VString (isoNow (env st)))])) /\
  (exists record h,
     calls (snd (like respond by_ subject ov st))
     = calls st ++ [anyCall (CreateRecord LikeRecord by_ record h)] /\
     get_prop k record = pick (own (raw subject)) /\
     (ov = None -> record = [(js "subject", raw subject);
                             (js "createdAt", VString (isoNow (env st)))])).
Proof.
  intros Hacc pick own. subst pick own. split.
  - unfold follow. run. rewrite Hacc. run.
    eexists. eexists. split; [|split].
    + repeat branch; reflexivity.
    + rewrite get_prop_spread. reflexivity.
    + now intros ->.
  - unfold like. run. rewrite Hacc. run.
    eexists. eexists. split; [|split].
    + repeat branch; reflexivity.
    + rewrite get_prop_spread. reflexivity.
    + now intros ->.
Qed.

(** X9: [createProfile] reads the avatar file at most once for all calls:
    when [AVATAR_IMG] is set, no file is read and the bytes uploaded are
    the cached ones; when it is unset and the read succeeds, the bytes are
    cached even if a later step of the call fails; when the read fails,
    the call throws the error of the read and nothing is cached. *)
Theorem X9_avatar_read_once (st : St) (by_ name_ desc : jsstring)
    (fromUser : option jsstring) :
  let st' := snd (createProfile respond by_ name_ desc fromUser st) in
  (forall b, AVATAR_IMG st = Some b ->
     AVATAR_IMG st' = Some b /\
     exists new,
       calls st' = calls st ++ new /\
       Forall (fun c => isReadFile c = false /\ uploads b c) new) /\
  (forall b e', AVATAR_IMG st = None ->
     respond Bytes (ReadFile avatarPath) (env st) = (inr b, e') ->
     AVATAR_IMG st' = Some b /\
     exists new,
       calls st' = calls st ++ anyCall (ReadFile avatarPath) :: new /\
       Forall (fun c => isReadFile c = false /\ uploads b c) new) /\
  (forall e e', AVATAR_IMG st = None ->
     respond Bytes (ReadFile avatarPath) (env st) = (inl e, e') ->
     fst (createProfile respond by_ name_ desc fromUser st) = inl (Raised e) /\
     AVATAR_IMG st' = None /\
     calls st' = calls st ++ [anyCall (ReadFile avatarPath)] /\
     client st' = client st).
Proof.
  intros st'. subst st'. split; [|split].
  - intros b Hb. unfold createProfile, avatarImage. run. rewrite Hb. run.
    repeat branch; run; (split; [exact Hb|]); eexists;
      (split; [rewrite <- ?app_assoc;
               first [reflexivity | symmetry; apply app_nil_r]
              | cbn [app]; repeat constructor]).
  - intros b e' Hn Hr. unfold createProfile, avatarImage. run.
    rewrite Hn, Hr. run.
    repeat branch; run; (split; [reflexivity|]); eexists;
      (split; [rewrite <- ?app_assoc; cbn [app]; reflexivity
              | cbn [app]; repeat constructor]).
  - intros e e' Hn Hr. unfold createProfile, avatarImage. run.
    rewrite Hn, Hr. run. repeat split; assumption || reflexivity.
Qed.

(** X10: [updateHandle], [deletePost], [uploadFile] and [createReport]
    never change the tables of the client; in particular a post deleted
    through [deletePost] stays in [posts]. *)
Theorem X10_tables_untouched (st : St)
    (by_ handle_ filePath encoding reportedBy : jsstring) (u : AtUri)
    (rt : ReasonType) (rs : ReportSubject) (reason : option jsstring) :
  client (snd (updateHandle respond by_ handle_ st)) = client st /\
  client (snd (deletePost respond by_ u st)) = client st /\
  client (snd (uploadFile respond by_ filePath encoding st)) = client st /\
  client (snd (createReport respond rt rs reason reportedBy st)) = client st.
Proof.
  unfold updateHandle, deletePost, uploadFile, createReport. run.
  repeat match goal with |- _ /\ _ => split end; repeat branch; reflexivity.
Qed.

(** X11: when the agent accepts the like and the returned uri parses,
    [like] returns the parsed uri and files it under the liker and the
    text of the subject's uri, replacing an earlier like of that subject;
    every other entry of [likes] is as before. *)
Theorem X11_like_recorded (st : St) (by_ : jsstring) (subject : RecordRef)
    (ov : option Obj) (a : Account) (out : RecordOut) (e' : Env) (u : AtUri) :
  accounts (client st) !! by_ = Some a ->
  respond RecordOut
    (CreateRecord LikeRecord by_
       (spread [(js "subject", raw subject);
                (js "createdAt", VString (isoNow (env st)))] ov)
       (static_getHeaders (accessJwt a)))
    (env st) = (inr out, e') ->
  parseAtUri (out_uri out) = inr u ->
  let c := client st in
  let c' := client (snd (like respond by_ subject ov st)) in
  fst (like respond by_ subject ov st) = inr u /\
  likesAt c' by_ (uriStr subject) = Some u /\
  (forall b k, ~ (by_ = b /\ uriStr subject = k) ->
     likesAt c' b k = likesAt c b k) /\
  follows c' = follows c /\ posts c' = posts c.
Proof.
  intros Hacc Hres Hu c c'. subst c c'.
  unfold like. run. rewrite Hacc. run. rewrite Hres. run.
  rewrite Hu. run.
  split; [reflexivity|]. unfold likesAt. cbn [set_likes likes].
  split; [|split; [|split; reflexivity]].
  - rewrite nested_write. destruct (decide _) as [_|Hn]; [reflexivity|].
    now destruct Hn.
  - intros b k Hne. rewrite nested_write.
    destruct (decide _) as [Hy|_]; [contradiction | reflexivity].
Qed.

Lemma avatarImage_client (st st1 : St) (r : Exn + Bytes) :
  avatarImage respond st = (r, st1) -> client st1 = client st.
Proof.
  unfold avatarImage, perform.
  destruct (AVATAR_IMG st); [now intros [= _ <-]|].
  destruct (respond Bytes _ (env st)) as [[e|b] e']; now intros [= _ <-].
Qed.

(** X19: [createProfile] uploads the avatar and creates the profile record
    with the token of [fromUser], or of [by] when [fromUser] is absent or
    empty; when both requests are accepted and the returned uri and cid
    parse, it returns the profile, with the uploaded blob as avatar, and
    files it under [by]; the profiles of other users are as before. *)
Theorem X19_createProfile_recorded (st st1 : St)
    (by_ name_ desc : jsstring) (fromUser : option jsstring) (img : Bytes)
    (a : Account) (blob : BlobRef) (e1 e2 : Env) (out : RecordOut)
    (ref : RecordRef) :
  let h := static_getHeaders (accessJwt a) in
  let upload := UploadBlob img (js "image/jpeg") h in
  let create :=
    CreateRecord ProfileRecord by_
      [(js "displayName", VString name_); (js "description", VString desc);
       (js "avatar", VBlob blob)] h in
  avatarImage respond st = (inr img, st1) ->
  accounts (client st) !! orElse fromUser by_ = Some a ->
  respond BlobRef upload (env st1) = (inr blob, e1) ->
  respond RecordOut create e1 = (inr out, e2) ->
  new_RecordRef (inr (out_uri out)) (inr (out_cid out)) = inr ref ->
  let p := {| displayName := name_; description := desc; avatar := blob;
              profile_ref := ref |} in
  let st' := snd (createProfile respond by_ name_ desc fromUser st) in
  fst (createProfile respond by_ name_ desc fromUser st) = inr p /\
  profiles (client st') !! by_ = Some p /\
  (forall b, b <> by_ -> profiles (client st') !! b = profiles (client st) !! b) /\
  calls st' = calls st1 ++ [anyCall upload; anyCall create].
Proof.
  intros h upload create Himg Hacc Hup Hcr Href p st'.
  subst h upload create p st'.
  pose proof (avatarImage_client st st1 _ Himg) as Hc.
  unfold createProfile.
  repeat (progress (run; rewrite ?Himg, ?Hc, ?Hacc, ?Hup, ?Hcr, ?Href)).
  cbn [set_profiles profiles].
  split; [reflexivity|]. split; [apply lookup_insert_eq|].
  split.
  - intros b Hb. now rewrite lookup_insert_ne by (intros Heq; now apply Hb).
  - now rewrite <- app_assoc.
Qed.

End Records.

Lemma X3_follow_recorded_witness :
  followsAt (client (snd (follow sampleRespond alice bob None stAccounts)))
    alice bob
  = Some (@mkRecordRef sampleExternals
            (js "at://did:example:alice.test/0") (js "bafy")).
Proof.
  apply (X3_follow_recorded (H := sampleExternals) sampleRespond stAccounts
           alice bob None
           (mkAccount alice (js "jwt-alice.test") (js "refresh-alice.test")
              (js "alice.test") (js "a@x") (js "pw"))
           (mkRecordOut (js "at://did:example:alice.test/0") (js "bafy"))
           1%N); reflexivity.
Defined.

Lemma X2_requests_carry_bearer_witness :
  calls (snd (deletePost sampleRespond alice
                (js "at://did:example:alice.test/0") stAccounts))
  = calls stAccounts ++
    [anyCall (@DeleteRecord sampleExternals PostRecord alice
                (js "did:example:alice.test/0")
                {| Seed.authorization := js "Bearer jwt-alice.test" |})].
Proof.
  apply (X2_requests_carry_bearer (H := sampleExternals) sampleRespond
           stAccounts alice
           (mkAccount alice (js "jwt-alice.test") (js "refresh-alice.test")
              (js "alice.test") (js "a@x") (js "pw"))
           bob (js "hi") (js "at://did:example:alice.test/0")
           (@mkRecordRef sampleExternals (js "u") (js "c"))
           (@mkRecordRef sampleExternals (js "u") (js "c"))
           None None None None (js "spam") (js "subject") None).
  reflexivity.
Defined.

Lemma X1_unknown_account_sends_nothing_witness :
  follow sampleRespond (js "did:example:carol") bob None stAccounts
  = (inl TypeError, stAccounts).
Proof.
  apply (X1_unknown_account_sends_nothing (H := sampleExternals) sampleRespond
           stAccounts (js "did:example:carol") bob (js "hi")
           (js "at://x") (@mkRecordRef sampleExternals (js "u") (js "c"))
           (@mkRecordRef sampleExternals (js "u") (js "c"))
           None None None None (js "spam") (js "subject") None).
  reflexivity.
Defined.

Lemma X4_unfollow_witness :
  fst (unfollow sampleRespond alice bob stFollowing) = inr tt /\
  followsAt (client (snd (unfollow sampleRespond alice bob stFollowing)))
    alice bob = None /\
  unfollow sampleRespond bob alice stFollowing = (inl TypeError, stFollowing).
Proof.
  pose proof (X4_unfollow (H := sampleExternals) sampleRespond stFollowing
                alice bob) as [_ [_ Hok]].
  pose proof (X4_unfollow (H := sampleExternals) sampleRespond stFollowing
                bob alice) as [Hnone _].
  specialize (Hok (@mkRecordRef sampleExternals
                     (js "at://did:example:alice.test/0") (js "bafy"))
                (mkAccount alice (js "jwt-alice.test")
                   (js "refresh-alice.test") (js "alice.test") (js "a@x")
                   (js "pw"))
                eq_refl eq_refl).
  destruct Hok as [_ [Hok _]].
  destruct (Hok tt 1%N eq_refl) as [H1 [H2 _]].
  split; [exact H1|]. split; [exact H2|]. apply Hnone. reflexivity.
Defined.

Lemma X5_lists_appended_witness :
  postsOf (client (snd (post sampleRespond alice (js "hello") None None None
                          None stAccounts))) alice
  = [@mkPost sampleExternals (js "hello")
       (@mkRecordRef sampleExternals (js "at://did:example:alice.test/0")
          (js "bafy")) [] None].
Proof.
  pose proof (X5_lists_appended (H := sampleExternals) sampleRespond
                stAccounts alice (js "hello") None None None None
                (@mkRecordRef sampleExternals (js "u") (js "c"))
                (@mkRecordRef sampleExternals (js "u") (js "c"))
                (mkAccount alice (js "jwt-alice.test")
                   (js "refresh-alice.test") (js "alice.test") (js "a@x")
                   (js "pw"))
                eq_refl) as [Hpost _].
  destruct (Hpost (mkRecordOut (js "at://did:example:alice.test/0")
                     (js "bafy")) 1%N
              (@mkRecordRef sampleExternals
                 (js "at://did:example:alice.test/0") (js "bafy"))
              eq_refl eq_refl) as [_ [Happ _]].
  exact Happ.
Defined.

Lemma X6_failure_keeps_contents_witness :
  sameContents
    (client (snd (follow sampleRespond (js "did:example:carol") bob None
                    stAccounts)))
    (client stAccounts).
Proof.
  apply (proj1 (X6_failure_keeps_contents (H := sampleExternals) sampleRespond
                  stAccounts (js "did:example:carol") bob (js "hi")
                  (js "carol") (js "carol.test") (js "c@x") (js "pw")
                  (js "Carol") (js "hello") None None
                  None None
                  (@mkRecordRef sampleExternals (js "u") (js "c"))
                  (@mkRecordRef sampleExternals (js "u") (js "c"))
                  None TypeError)).
  reflexivity.
Defined.

Lemma X7_createAccount_then_headers_witness :
  getHeaders alice
    (snd (createAccount sampleRespond (js "alice") (js "alice.test")
            (js "a@x") (js "pw") st0))
  = (inr {| Seed.authorization := js "Bearer jwt-alice.test" |},
     snd (createAccount sampleRespond (js "alice") (js "alice.test")
            (js "a@x") (js "pw") st0)).
Proof.
  apply (X7_createAccount_then_headers (H := sampleExternals) sampleRespond
           st0 (js "alice") (js "alice.test") (js "a@x") (js "pw")
           (mkAccountOut alice (js "jwt-alice.test")
              (js "refresh-alice.test") (js "alice.test"))
           0%N).
  reflexivity.
Defined.

Lemma X8_overrides_win_witness :
  exists record h,
    calls (snd (follow sampleRespond alice bob
                  (Some [(js "subject", @VString sampleExternals (js "did:x"))])
                  stAccounts))
    = calls stAccounts ++
      [anyCall (@CreateRecord sampleExternals FollowRecord alice record h)] /\
    get_prop (js "subject") record = VString (js "did:x") /\
    (Some [(js "subject", @VString sampleExternals (js "did:x"))] = None ->
     record = [(js "subject", VString bob);
               (js "createdAt", VString (js "2023-05-01T00:00:00.000Z"))]).
Proof.
  apply (proj1 (X8_overrides_win (H := sampleExternals) sampleRespond
                  stAccounts alice bob
                  (@mkRecordRef sampleExternals (js "u") (js "c"))
                  (Some [(js "subject", VString (js "did:x"))])
                  (mkAccount alice (js "jwt-alice.test")
                     (js "refresh-alice.test") (js "alice.test") (js "a@x")
                     (js "pw"))
                  (js "subject") eq_refl)).
Defined.

Lemma X9_avatar_read_once_witness :
  AVATAR_IMG (snd (createProfile sampleRespond (js "did:example:carol")
                     (js "Carol") (js "hi") None st0))
  = Some (js "bytes of tests/image/fixtures/key-portrait-small.jpg").
Proof.
  apply (proj1 (proj2 (X9_avatar_read_once (H := sampleExternals)
                         sampleRespond st0 (js "did:example:carol")
                         (js "Carol") (js "hi") None))
           (js "bytes of tests/image/fixtures/key-portrait-small.jpg") 0%N);
    reflexivity.
Defined.

Lemma X11_like_recorded_witness :
  likesAt (client (snd (like sampleRespond alice
                          (@mkRecordRef sampleExternals (js "at://p/1")
                             (js "c")) None stAccounts)))
    alice (js "at://p/1")
  = Some (js "at://did:example:alice.test/0").
Proof.
  apply (X11_like_recorded (H := sampleExternals) sampleRespond stAccounts
           alice (@mkRecordRef sampleExternals (js "at://p/1") (js "c")) None
           (mkAccount alice (js "jwt-alice.test") (js "refresh-alice.test")
              (js "alice.test") (js "a@x") (js "pw"))
           (mkRecordOut (js "at://did:example:alice.test/0") (js "bafy"))
           1%N (js "at://did:example:alice.test/0")); reflexivity.
Defined.

Lemma X19_createProfile_recorded_witness :
  profiles (client (snd (createProfile sampleRespond bob (js "Bob") (js "hi")
                           (Some alice) stAccounts))) !! bob
  = Some (@mkProfile sampleExternals (js "Bob") (js "hi")
            (js "blob:bytes of tests/image/fixtures/key-portrait-small.jpg")
            (@mkRecordRef sampleExternals (js "at://did:example:bob.test/0")
               (js "bafy"))).
Proof.
  apply (X19_createProfile_recorded (H := sampleExternals) sampleRespond
           stAccounts
           (snd (avatarImage sampleRespond stAccounts))
           bob (js "Bob") (js "hi") (Some alice)
           (js "bytes of tests/image/fixtures/key-portrait-small.jpg")
           (mkAccount alice (js "jwt-alice.test") (js "refresh-alice.test")
              (js "alice.test") (js "a@x") (js "pw"))
           (js "blob:bytes of tests/image/fixtures/key-portrait-small.jpg")
           0%N 1%N
           (mkRecordOut (js "at://did:example:bob.test/0") (js "bafy"))
           (@mkRecordRef sampleExternals (js "at://did:example:bob.test/0")
              (js "bafy"))); reflexivity.
Defined.

End SeedRecordsProps.

(** ** [ServerConfig]: the environment and the getters *)

Module ConfigEnvProps.

Import ConfigEnv.

Lemma startsWith_slash_app (x y : jsstring) :
  x <> [] -> startsWith (x ++ y) (js "/") = startsWith x (js "/").
Proof. destruct x as [|c x]; [congruence | reflexivity]. Qed.

Lemma splitOn_cons (sep : N) (s : jsstring) :
  exists piece pieces, splitOn sep s = piece :: pieces.
Proof.
  induction s as [|c s [p [ps IH]]]; cbn [splitOn]; [now eexists; eexists|].
  destruct (c =? sep)%N; [now eexists; eexists|].
  rewrite IH. now eexists; eexists.
Qed.

Lemma join_cons_cons (sep : jsstring) (c : N) (p : jsstring)
    (ps : list jsstring) :
  join sep ((c :: p) :: ps) = c :: join sep (p :: ps).
Proof. destruct ps; reflexivity. Qed.

(** Joining the pieces with the separator gives the string back. *)
Lemma join_splitOn (sep : N) (s : jsstring) :
  join [sep] (splitOn sep s) = s.
Proof.
  induction s as [|c s IH]; [reflexivity|]. cbn [splitOn].
  destruct (splitOn_cons sep s) as [p [ps Hs]].
  destruct (N.eqb_spec c sep) as [->|Hne].
  - rewrite Hs.
    change (join [sep] ([] :: p :: ps)) with (sep :: join [sep] (p :: ps)).
    now rewrite <- Hs, IH.
  - rewrite Hs, join_cons_cons. now rewrite <- Hs, IH.
Qed.

Lemma splitOn_no_sep (sep : N) (s : jsstring) :
  Forall (fun piece => ~ In sep piece) (splitOn sep s).
Proof.
  induction s as [|c s IH]; cbn [splitOn].
  - constructor; [intros [] | constructor].
  - destruct (N.eqb_spec c sep) as [->|Hne].
    + constructor; [intros [] | exact IH].
    + destruct (splitOn sep s) as [|p ps]; [repeat constructor|].
      * intros [Heq|[]]. now apply Hne.
      * inversion IH as [|? ? Hp Hps]; subst. constructor; [|exact Hps].
        intros [Heq|Hin]; [now apply Hne | now apply Hp].
Qed.

Section Values.

Variable Number : Type.
Variable showNumber : Number -> jsstring.
Variable num : Z -> Number.
Variables HOUR DAY : Number.
Variable parseIntWithFallback :
  forall T : Type, option jsstring -> T -> Number + T.

(** X12: [publicUrl] is never the empty string: it is the configured
    [publicUrl] when that is a non-empty string and [internalUrl]
    otherwise, and [internalUrl] always contains ['://']. *)
Theorem X12_publicUrl_never_empty (c : ServerConfig Number) :
  get_publicUrl Number showNumber c <> [] /\
  isSubstring (js "://") (get_internalUrl Number showNumber c) /\
  (forall s, publicUrl Number (cfg Number c) = Some s -> s <> [] ->
     get_publicUrl Number showNumber c = s) /\
  (publicUrl Number (cfg Number c) = None \/
   publicUrl Number (cfg Number c) = Some [] ->
   get_publicUrl Number showNumber c = get_internalUrl Number showNumber c).
Proof.
  assert (get_internalUrl Number showNumber c <> []) as Hint.
  { unfold get_internalUrl. intros Heq. apply app_eq_nil in Heq as [_ Heq].
    discriminate Heq. }
  unfold get_publicUrl, orDefault. split; [|split; [|split]].
  - destruct (publicUrl Number (cfg Number c)) as [[|x s]|]; simpl;
      [exact Hint | discriminate | exact Hint].
  - unfold get_internalUrl. eexists. eexists. reflexivity.
  - intros s -> Hne. destruct s; [congruence | reflexivity].
  - intros [-> | ->]; reflexivity.
Qed.

Lemma policy_urls_resolved (c : ServerConfig Number) :
  startsWith (scheme Number (cfg Number c)) (js "/") = false ->
  (forall s, publicUrl Number (cfg Number c) = Some s ->
             startsWith s (js "/") = false) ->
  (forall p, privacyPolicyUrl Number (cfg Number c) = Some p ->
     startsWith p (js "/") = true ->
     get_privacyPolicyUrl Number showNumber c
     = Some (get_publicUrl Number showNumber c ++ p)) /\
  (forall p, termsOfServiceUrl Number (cfg Number c) = Some p ->
     startsWith p (js "/") = true ->
     get_termsOfServiceUrl Number showNumber c
     = Some (get_publicUrl Number showNumber c ++ p)) /\
  (forall u, get_privacyPolicyUrl Number showNumber c = Some u ->
     startsWith u (js "/") = false) /\
  (forall u, get_termsOfServiceUrl Number showNumber c = Some u ->
     startsWith u (js "/") = false).
Proof.
  intros Hscheme Hpub.
  assert (startsWith (get_publicUrl Number showNumber c) (js "/") = false
          /\ get_publicUrl Number showNumber c <> []) as [Hp Hpne].
  { assert (startsWith (get_internalUrl Number showNumber c) (js "/") = false
            /\ get_internalUrl Number showNumber c <> []) as [Hi Hine].
    { unfold get_internalUrl. split.
      - destruct (scheme Number (cfg Number c)) as [|y sc] eqn:Hsc;
          [reflexivity|].
        now rewrite startsWith_slash_app by discriminate.
      - intros Heq. apply app_eq_nil in Heq as [_ Heq]. discriminate Heq. }
    unfold get_publicUrl, orDefault.
    destruct (publicUrl Number (cfg Number c)) as [s|] eqn:Hcfg;
      [|now split].
    destruct s as [|x s]; [now split|].
    change (truthy (JString (x :: s))) with true. cbn iota.
    split; [now apply Hpub | discriminate]. }
  assert (forall v u,
            match v with
            | Some s =>
                if truthy (JString s) && startsWith s (js "/")
                then Some (get_publicUrl Number showNumber c ++ s)
                else Some s
            | None => None
            end = Some u -> startsWith u (js "/") = false) as Habs.
  { intros [s|] u; [|discriminate].
    destruct (truthy (JString s)) eqn:Ht; cbn [andb].
    - destruct (startsWith s (js "/")) eqn:Hs; intros [= <-];
        [|exact Hs]. now rewrite startsWith_slash_app.
    - intros [= <-]. destruct s; [reflexivity | discriminate]. }
  assert (forall p, startsWith p (js "/") = true -> truthy (JString p) = true)
    as Htr by (intros [|x p]; [discriminate | reflexivity]).
  unfold get_privacyPolicyUrl, get_termsOfServiceUrl.
  split; [|split; [|split]].
  - intros p -> Hs. now rewrite (Htr p Hs), Hs.
  - intros p -> Hs. now rewrite (Htr p Hs), Hs.
  - intros u. apply Habs.
  - intros u. apply Habs.
Qed.


(** X13: the getters of the two policy URLs turn a configured value that
    starts with ['/'] into [publicUrl] followed by that value, return every
    other configured value as it is, and return [undefined] when nothing is
    configured; so, when neither the scheme nor a configured [publicUrl]
    starts with ['/'], no URL they return starts with ['/']. *)
Theorem X13_policy_urls_absolute (c : ServerConfig Number) :
  (forall p, privacyPolicyUrl Number (cfg Number c) = Some p ->
     startsWith p (js "/") = true ->
     get_privacyPolicyUrl Number showNumber c
     = Some (get_publicUrl Number showNumber c ++ p)) /\
  (forall p, privacyPolicyUrl Number (cfg Number c) = Some p ->
     startsWith p (js "/") = false ->
     get_privacyPolicyUrl Number showNumber c = Some p) /\
  (privacyPolicyUrl Number (cfg Number c) = None ->
     get_privacyPolicyUrl Number showNumber c = None) /\
  (forall p, termsOfServiceUrl Number (cfg Number c) = Some p ->
     startsWith p (js "/") = true ->
     get_termsOfServiceUrl Number showNumber c
     = Some (get_publicUrl Number showNumber c ++ p)) /\
  (forall p, termsOfServiceUrl Number (cfg Number c) = Some p ->
     startsWith p (js "/") = false ->
     get_termsOfServiceUrl Number showNumber c = Some p) /\
  (termsOfServiceUrl Number (cfg Number c) = None ->
     get_termsOfServiceUrl Number showNumber c = None) /\
  (startsWith (scheme Number (cfg Number c)) (js "/") = false ->
   (forall s, publicUrl Number (cfg Number c) = Some s ->
              startsWith s (js "/") = false) ->
   (forall u, get_privacyPolicyUrl Number showNumber c = Some u ->
      startsWith u (js "/") = false) /\
   (forall u, get_termsOfServiceUrl Number showNumber c = Some u ->
      startsWith u (js "/") = false)).
Proof.
  assert (forall p, startsWith p (js "/") = true -> truthy (JString p) = true)
    as Htr by (intros [|x p]; [discriminate | reflexivity]).
  unfold get_privacyPolicyUrl, get_termsOfServiceUrl.
  repeat match goal with |- _ /\ _ => split end.
  - intros p -> Hs. now rewrite (Htr p Hs), Hs.
  - intros p -> Hs. now rewrite Hs, andb_false_r.
  - now intros ->.
  - intros p -> Hs. now rewrite (Htr p Hs), Hs.
  - intros p -> Hs. now rewrite Hs, andb_false_r.
  - now intros ->.
  - intros Hscheme Hpub.
    destruct (policy_urls_resolved c Hscheme Hpub) as [_ [_ Habs]].
    exact Habs.
Qed.

(** X14: [readEnv] reports a missing server DID before a missing recovery
    key, and both before the domains are checked. A value counts as given
    when [overrides] holds a non-empty string or the environment holds the
    variable, even as an empty string. When both are given, [readEnv]
    throws 'Invalid domain: d' exactly when the first invalid domain [d] is
    non-empty, and otherwise returns a configuration with these domains in
    which an override of the server DID or recovery key, empty or not,
    replaces the value from the environment. *)
Theorem X14_readEnv_errors (env : gmap jsstring jsstring)
    (ov : Overrides Number) :
  let sd := orOpt (o_serverDid Number ov) (env !! js "SERVER_DID") in
  let rk := orOpt (o_recoveryKey Number ov) (env !! js "RECOVERY_KEY") in
  let domains := domainsOf Number env ov in
  (sd = None -> readEnv Number num HOUR DAY parseIntWithFallback env ov = inl noServerDid) /\
  (sd <> None -> rk = None -> readEnv Number num HOUR DAY parseIntWithFallback env ov = inl noRecoveryKey) /\
  (sd <> None -> rk <> None ->
     (forall d, List.find Config.isInvalid domains = Some d -> d <> [] ->
        readEnv Number num HOUR DAY parseIntWithFallback env ov = inl (Error (js "Invalid domain: " ++ d))) /\
     (List.find Config.isInvalid domains = None \/
      List.find Config.isInvalid domains = Some [] ->
      exists c,
        readEnv Number num HOUR DAY parseIntWithFallback env ov = inr c /\
        availableUserDomains Number (cfg Number c) = domains /\
        Some (serverDid Number (cfg Number c))
        = match o_serverDid Number ov with
          | Some s => Some s
          | None => env !! js "SERVER_DID"
          end /\
        Some (recoveryKey Number (cfg Number c))
        = match o_recoveryKey Number ov with
          | Some s => Some s
          | None => env !! js "RECOVERY_KEY"
          end)).
Proof.
  intros sd rk domains. subst sd rk domains. unfold readEnv.
  destruct (orOpt (o_serverDid Number ov) (env !! js "SERVER_DID"))
    as [sd|] eqn:Hsd.
  2:{ repeat split; congruence. }
  destruct (orOpt (o_recoveryKey Number ov) (env !! js "RECOVERY_KEY"))
    as [rk|] eqn:Hrk.
  2:{ repeat split; congruence. }
  split; [discriminate|]. split; [congruence|]. intros _ _.
  unfold new_ServerConfig, Config.new_ServerConfig, Config.Array_find.
  cbn [availableUserDomains Config.availableUserDomains cfg serverDid
       recoveryKey].
  fold (domainsOf Number env ov).
  split.
  - intros d -> Hne. destruct d; [congruence | reflexivity].
  - intros Hfind.
    assert (forall o (v s : jsstring) (e : option jsstring),
              orOpt o e = Some v ->
              Some (over o v) = match o with Some s => Some s | None => e end)
      as Hover.
    { intros [s0|] v s e; unfold orOpt, orUndefined, over; [reflexivity|].
      now intros ->. }
    destruct Hfind as [-> | ->]; cbn [truthy negb jsstring_eqb];
      (eexists; split; [reflexivity|]);
      cbn [cfg availableUserDomains serverDid recoveryKey];
      (split; [reflexivity|]); split; now apply Hover.
Qed.

(** X15: without an override of the domains, the domains of the
    configuration [readEnv] returns are the comma-separated pieces of
    [AVAILABLE_USER_DOMAINS]: joined with commas they give the variable
    back, and none of them contains a comma; when the variable is unset or
    empty there are no domains. *)
Theorem X15_domains_from_env (env : gmap jsstring jsstring)
    (ov : Overrides Number) (c : ServerConfig Number) :
  o_availableUserDomains Number ov = None ->
  readEnv Number num HOUR DAY parseIntWithFallback env ov = inr c ->
  let domains := availableUserDomains Number (cfg Number c) in
  (forall s, env !! js "AVAILABLE_USER_DOMAINS" = Some s -> s <> [] ->
     join (js ",") domains = s /\
     Forall (fun d => ~ In comma d) domains) /\
  (env !! js "AVAILABLE_USER_DOMAINS" = None \/
   env !! js "AVAILABLE_USER_DOMAINS" = Some [] -> domains = []).
Proof.
  intros Hov Hread domains. subst domains.
  assert (availableUserDomains Number (cfg Number c) = domainsOf Number env ov)
    as ->.
  { unfold readEnv in Hread.
    destruct (orOpt (o_serverDid Number ov) _); [|discriminate].
    destruct (orOpt (o_recoveryKey Number ov) _); [|discriminate].
    unfold new_ServerConfig in Hread.
    destruct (Config.new_ServerConfig _); [discriminate|].
    injection Hread as <-. reflexivity. }
  unfold domainsOf. rewrite Hov. cbn [over]. split.
  - intros s -> Hne. unfold orUndefined.
    destruct s as [|x s]; [congruence|]. cbn [truthy negb jsstring_eqb].
    replace (jsstring_eqb (x :: s) []) with false by reflexivity.
    cbn [negb]. split; [apply (join_splitOn comma) | apply splitOn_no_sep].
  - intros [-> | ->]; reflexivity.
Qed.

(** X18: for a configuration that [readEnv] returns without an override
    of the scheme, the scheme is ['http'] or ['https']; if moreover
    [publicUrl] is not overridden and [PUBLIC_URL] does not start with
    ['/'], the policy URLs of the configuration never start with ['/']: a
    path taken from the environment or from an override is always served
    as an absolute URL. *)
Theorem X18_readEnv_policy_urls (env : gmap jsstring jsstring)
    (ov : Overrides Number) (c : ServerConfig Number) :
  readEnv Number num HOUR DAY parseIntWithFallback env ov = inr c ->
  o_scheme Number ov = None ->
  (scheme Number (cfg Number c) = js "http" \/
   scheme Number (cfg Number c) = js "https") /\
  (o_publicUrl Number ov = None ->
   (forall s, env !! js "PUBLIC_URL" = Some s ->
              startsWith s (js "/") = false) ->
   (forall u, get_privacyPolicyUrl Number showNumber c = Some u ->
      startsWith u (js "/") = false) /\
   (forall u, get_termsOfServiceUrl Number showNumber c = Some u ->
      startsWith u (js "/") = false)).
Proof.
  intros Hread Hsch.
  assert ((scheme Number (cfg Number c) = js "http" \/
           scheme Number (cfg Number c) = js "https") /\
          publicUrl Number (cfg Number c)
          = overOpt (o_publicUrl Number ov)
              (orUndefined (env !! js "PUBLIC_URL"))) as [Hs Hp].
  { unfold readEnv in Hread.
    destruct (orOpt (o_serverDid Number ov) _); [|discriminate].
    destruct (orOpt (o_recoveryKey Number ov) _); [|discriminate].
    unfold new_ServerConfig in Hread.
    destruct (Config.new_ServerConfig _); [discriminate|].
    injection Hread as <-. cbn [cfg scheme publicUrl].
    rewrite Hsch. cbn [over]. split; [|reflexivity].
    destruct (env !! js "TLS") as [tls|].
    - destruct (jsstring_eqb tls (js "1")); [now right | now left].
    - destruct (jsstring_eqb _ (js "localhost")); [now left | now right]. }
  split; [exact Hs|]. intros Hpub Henv.
  rewrite Hpub in Hp. cbn [overOpt] in Hp.
  assert (startsWith (scheme Number (cfg Number c)) (js "/") = false) as Hsc
    by (destruct Hs as [-> | ->]; reflexivity).
  assert (forall s, publicUrl Number (cfg Number c) = Some s ->
                    startsWith s (js "/") = false) as Hcfg.
  { intros s. rewrite Hp. unfold orUndefined.
    destruct (env !! js "PUBLIC_URL") as [v|] eqn:Hv; [|discriminate].
    destruct (truthy (JString v)); [|discriminate].
    intros [= <-]. now apply Henv. }
  destruct (policy_urls_resolved c Hsc Hcfg) as [_ [_ Habs]].
  exact Habs.
Qed.

End Values.

Lemma X13_policy_urls_absolute_witness :
  get_privacyPolicyUrl Z showZ sampleConfig
  = Some (js "https://pds.example:2583/privacy") /\
  (forall u, get_privacyPolicyUrl Z showZ sampleConfig = Some u ->
     startsWith u (js "/") = false).
Proof.
  pose proof (X13_policy_urls_absolute Z showZ sampleConfig)
    as [Hrel [_ [_ [_ [_ [_ Habs]]]]]].
  split.
  - apply (Hrel (js "/privacy")); reflexivity.
  - apply Habs; [reflexivity|].
    intros s Hs. vm_compute in Hs. discriminate Hs.
Defined.

Lemma X14_readEnv_errors_witness :
  sampleReadEnv ∅ (noOverrides Z) = inl noServerDid /\
  sampleReadEnv (<[js "AVAILABLE_USER_DOMAINS" := js ".test,example"]> sampleEnv)
    (noOverrides Z)
  = inl (Error (js "Invalid domain: example")).
Proof.
  split.
  - apply (proj1 (X14_readEnv_errors Z (fun z => z) 3600000 86400000
                    sampleParseInt ∅ (noOverrides Z))).
    reflexivity.
  - pose proof (proj2 (proj2
             (X14_readEnv_errors Z (fun z => z) 3600000 86400000 sampleParseInt
                (<[js "AVAILABLE_USER_DOMAINS" := js ".test,example"]> sampleEnv)
                (noOverrides Z)))) as Hboth.
    cbv zeta in Hboth.
    apply (proj1 (Hboth ltac:(vm_compute; discriminate)
                    ltac:(vm_compute; discriminate)) (js "example"));
      [reflexivity | discriminate].
Defined.

Lemma X15_domains_from_env_witness :
  join (js ",") (availableUserDomains Z (cfg Z sampleConfig))
  = js ".test,.example" /\
  Forall (fun d => ~ In comma d) (availableUserDomains Z (cfg Z sampleConfig)).
Proof.
  apply (proj1 (X15_domains_from_env Z (fun z => z) 3600000 86400000
                  sampleParseInt sampleEnv (noOverrides Z) sampleConfig
                  eq_refl eq_refl) (js ".test,.example"));
    [reflexivity | discriminate].
Defined.

Lemma X18_readEnv_policy_urls_witness :
  (scheme Z (cfg Z sampleConfig) = js "http" \/
   scheme Z (cfg Z sampleConfig) = js "https") /\
  (forall u, get_privacyPolicyUrl Z showZ sampleConfig = Some u ->
     startsWith u (js "/") = false).
Proof.
  pose proof (X18_readEnv_policy_urls Z showZ (fun z => z) 3600000 86400000
                sampleParseInt sampleEnv (noOverrides Z) sampleConfig
                eq_refl eq_refl) as [Hs Habs].
  split; [exact Hs|].
  apply Habs; [reflexivity|].
  intros s Hs'. vm_compute in Hs'. discriminate Hs'.
Defined.

End ConfigEnvProps.

(** ** The scenarios table: groups of rows *)

Module DocsGroupProps.

Import Docs.

Lemma lastTitleAfter_cons (lastTitle t : jsstring) (s : Scenario)
    (entries : list (jsstring * Scenario)) :
  lastTitleAfter lastTitle ((t, s) :: entries)
  = lastTitleAfter (take 10 t) entries.
Proof.
  unfold lastTitleAfter. rewrite last_cons.
  now destruct (last entries) as [[t' s']|].
Qed.

Lemma isSubstring_length (needle hay : jsstring) :
  isSubstring needle hay -> (length needle <= length hay)%nat.
Proof. intros [pre [post ->]]. rewrite !length_app. lia. Qed.

(** X16: the chunks of a list of entries are the chunks of a first part
    followed by the chunks of the rest, computed from the [lastTitle] that
    the first part leaves behind: whether a row gets a header depends on
    the title before it and on nothing earlier. *)
Theorem X16_chunks_of_append (stripIndents : jsstring -> jsstring)
    (lastTitle : jsstring) (xs ys : list (jsstring * Scenario)) :
  scenarioChunks stripIndents lastTitle (xs ++ ys)
  = scenarioChunks stripIndents lastTitle xs
    ++ scenarioChunks stripIndents (lastTitleAfter lastTitle xs) ys.
Proof.
  revert lastTitle. induction xs as [|[t s] xs IH]; intros lastTitle.
  - reflexivity.
  - cbn [app scenarioChunks]. rewrite IH. rewrite lastTitleAfter_cons.
    change (slice t 0 10) with (slice t 0 (Z.of_nat 10)).
    now rewrite slice_prefix.
Qed.

(** X17: in the generated table, the piece of text emitted for a row
    whose title starts with the first ten code units of the title before
    it has an empty header line, so the rows of a group share the header of
    its first row; for a row whose title is shorter than that prefix the
    header line always holds the header row. *)
Theorem X17_group_rows (stripIndents : jsstring -> jsstring)
    (entries : list (jsstring * Scenario)) (i : nat)
    (prev title : jsstring) (scPrev sc : Scenario) :
  entries !! i = Some (prev, scPrev) ->
  entries !! S i = Some (title, sc) ->
  exists (pieces : list jsstring) (head : jsstring),
    profiles stripIndents entries
    = stripIndents (docHeader ++ join (js "

") pieces ++ docFooter) /\
    pieces !! S i
    = Some (js "
          " ++ head ++ js "
          " ++ scenarioSection stripIndents title sc ++ js "
        ") /\
    (startsWith title (take 10 prev) = true -> head = []) /\
    ((length title < Nat.min 10 (length prev))%nat ->
     head
     = js "<tr><th>Scenario</th><th>Filter</th><th>Account</th><th>Profile</td><th>Avatar</th></tr>").
Proof.
  intros Hprev Hcur.
  eexists. eexists. split; [apply DocsProps.profiles_emits|].
  rewrite list_lookup_fmap.
  rewrite (DocsProps.scenarioChunks_lookup stripIndents entries (js "NULL")
             (S i) title sc Hcur).
  cbn [fmap option_fmap option_map chunk_head chunk_section lastTitleAt].
  rewrite Hprev. split; [reflexivity|].
  destruct (DocsProps.head_cases title (take 10 prev)) as [Hhead Hnone].
  split.
  - intros Hs. apply Hnone. now apply startsWith_substring.
  - intros Hlen. apply Hhead. intros Hsub.
    apply isSubstring_length in Hsub. rewrite length_take in Hsub. lia.
Qed.

Lemma X17_group_rows_witness :
  exists (pieces : list jsstring) (head : jsstring),
    profiles (fun s => s) sampleEntries
    = docHeader ++ join (js "

") pieces ++ docFooter /\
    pieces !! 1%nat
    = Some (js "
          " ++ head ++ js "
          "
            ++ scenarioSection (fun s => s)
                 (js "Imperative label ('!hide') on profile")
                 (s_flags None (Some true) (Some true) None) ++ js "
        ") /\
    (startsWith (js "Imperative label ('!hide') on profile")
       (take 10 (js "Imperative label ('!hide') on account")) = true ->
     head = []) /\
    ((length (js "Imperative label ('!hide') on profile")
      < Nat.min 10 (length (js "Imperative label ('!hide') on account")))%nat ->
     head
     = js "<tr><th>Scenario</th><th>Filter</th><th>Account</th><th>Profile</td><th>Avatar</th></tr>").
Proof.
  apply (X17_group_rows (fun s => s) sampleEntries 0
           (js "Imperative label ('!hide') on account")
           (js "Imperative label ('!hide') on profile")
           (s_flags (Some true) (Some true) (Some true) None)
           (s_flags None (Some true) (Some true) None));
    reflexivity.
Defined.

End DocsGroupProps.
